(** * Session lifecycle manager of LearnPath (frontend/src/utils/sessionManager.ts)

    A shallow embedding of the [SessionManager] class, of the activity
    tracker that feeds it and of the part of the browser runtime both rely
    on ([localStorage], [JSON], [Date.now], [setTimeout]/[clearTimeout]),
    followed by the properties of the session state machine.

    Modelling conventions.
    - Instants are epoch milliseconds, integers ([Z]).  JSON numbers are
      restricted to integers; doubles are outside the embedding.
    - A string held by [localStorage] is represented by what the code can
      observe of it: whether it is the empty string (falsy), whether
      [JSON.parse] rejects it, or the value [JSON.parse] decodes it to.
    - Exceptions are explicit: a computation returns [Ok] or [Throw], and
      state changes made before a throw persist, as in JavaScript.
    - The module is an ES module, hence strict-mode code.
    - Failures of the environment itself (a full or disabled
      [localStorage]) are not modelled.
    - The host's expiry callback is an opaque identifier; invoking it is
      recorded in a log.  Entries into [updateActivity] are counted.  Both
      are observations of the run and influence nothing. *)

From Stdlib Require Import ZArith.
From stdpp Require Import base option list gmap strings.

Local Open Scope Z_scope.
Set Warnings "-register-all".

(** ** JavaScript values *)

(** Values in the image of [JSON.parse]. Objects keep their own properties
    in insertion order. *)
Inductive json : Type :=
  | JNull
  | JBool (b : bool)
  | JNum (n : Z)
  | JStr (s : string)
  | JArr (elems : list json)
  | JObj (fields : list (string * json)).

(** What a property read or an argument of type [any] can be. *)
Inductive value : Type :=
  | Undefined
  | J (j : json).

(** Results of numeric conversion. *)
Inductive number : Type :=
  | NaN
  | Num (n : Z).

Inductive exn : Type :=
  | TypeError
  | SyntaxError
  | ReferenceError.

(** The content of one [localStorage] slot. *)
Inductive item : Type :=
  | Empty                 (* the empty string *)
  | Malformed             (* non-empty text rejected by JSON.parse *)
  | Decoded (j : json).   (* text that JSON.parse decodes to j *)

(** ToBoolean. *)
Definition truthy (j : json) : bool :=
  match j with
  | JNull => false
  | JBool b => b
  | JNum n => negb (n =? 0)
  | JStr s => negb (String.eqb s "")
  | JArr _ | JObj _ => true
  end.

(** Own properties of an object, first binding of a key. *)
Fixpoint obj_get (k : string) (fields : list (string * json)) : option json :=
  match fields with
  | [] => None
  | (k', v) :: rest => if String.eqb k k' then Some v else obj_get k rest
  end.

(** Assignment [o[k] = v]: replaces in place, or appends a new property. *)
Fixpoint obj_set (k : string) (v : json) (fields : list (string * json))
  : list (string * json) :=
  match fields with
  | [] => [(k, v)]
  | (k', v') :: rest =>
      if String.eqb k k' then (k, v) :: rest else (k', v') :: obj_set k v rest
  end.

(** The parts of numeric conversion that no integer model can decide:
    StringToNumber, and ToPrimitive on arrays and objects ([None] stands
    for the TypeError the conversion may raise). *)
Class Runtime : Type := {
  StringToNumber : string → number;
  ToPrimitive_number : json → option number
}.

(** A runtime for closed runs; none of them converts a string, an array
    or an object to a number. *)
Definition plain_runtime : Runtime :=
  {| StringToNumber := λ _, NaN; ToPrimitive_number := λ _, Some NaN |}.

(** [a > b] on numbers: false as soon as one side is NaN. *)
Definition js_gt (a b : number) : bool :=
  match a, b with
  | Num x, Num y => y <? x
  | _, _ => false
  end.

(** [a - b] on numbers. *)
Definition js_sub (a b : number) : number :=
  match a, b with
  | Num x, Num y => Num (x - y)
  | _, _ => NaN
  end.

(** [Math.max(0, Math.floor(r / 60000))]. *)
Definition minutes_left (r : number) : number :=
  match r with
  | Num x => Num (Z.max 0 (x / 60000))
  | NaN => NaN
  end.

(** ** The world: browser runtime, manager object, tracker *)

Record World : Type := mkWorld {
  clock : Z;                        (* what Date.now() returns next *)
  drift : list Z;                   (* clock advance after each next reading *)
  localStorage : gmap string item;
  timeouts : gmap nat Z;            (* pending setTimeout: handle, due instant *)
  nextHandle : nat;
  activityTimer : option nat;       (* this.activityTimer *)
  onSessionExpired : option nat;    (* this.onSessionExpired, a host callback *)
  lastActivityTime : Z;             (* the tracker's throttle stamp *)
  expired_log : list nat;           (* host callbacks invoked, newest first *)
  updateActivity_calls : nat        (* entries into updateActivity() *)
}.

Definition set_clock (t : Z) (d : list Z) (w : World) : World :=
  mkWorld t d (localStorage w) (timeouts w) (nextHandle w) (activityTimer w)
    (onSessionExpired w) (lastActivityTime w) (expired_log w)
    (updateActivity_calls w).

Definition set_localStorage (s : gmap string item) (w : World) : World :=
  mkWorld (clock w) (drift w) s (timeouts w) (nextHandle w) (activityTimer w)
    (onSessionExpired w) (lastActivityTime w) (expired_log w)
    (updateActivity_calls w).

Definition set_timeouts (q : gmap nat Z) (n : nat) (w : World) : World :=
  mkWorld (clock w) (drift w) (localStorage w) q n (activityTimer w)
    (onSessionExpired w) (lastActivityTime w) (expired_log w)
    (updateActivity_calls w).

Definition set_activityTimer (h : option nat) (w : World) : World :=
  mkWorld (clock w) (drift w) (localStorage w) (timeouts w) (nextHandle w) h
    (onSessionExpired w) (lastActivityTime w) (expired_log w)
    (updateActivity_calls w).

Definition set_onSessionExpired (cb : option nat) (w : World) : World :=
  mkWorld (clock w) (drift w) (localStorage w) (timeouts w) (nextHandle w)
    (activityTimer w) cb (lastActivityTime w) (expired_log w)
    (updateActivity_calls w).

Definition set_lastActivityTime (t : Z) (w : World) : World :=
  mkWorld (clock w) (drift w) (localStorage w) (timeouts w) (nextHandle w)
    (activityTimer w) (onSessionExpired w) t (expired_log w)
    (updateActivity_calls w).

Definition set_expired_log (l : list nat) (w : World) : World :=
  mkWorld (clock w) (drift w) (localStorage w) (timeouts w) (nextHandle w)
    (activityTimer w) (onSessionExpired w) (lastActivityTime w) l
    (updateActivity_calls w).

Definition set_updateActivity_calls (n : nat) (w : World) : World :=
  mkWorld (clock w) (drift w) (localStorage w) (timeouts w) (nextHandle w)
    (activityTimer w) (onSessionExpired w) (lastActivityTime w)
    (expired_log w) n.

(** A freshly loaded page: empty storage, no timer, no callback. *)
Definition fresh_world : World :=
  mkWorld 0 [] ∅ ∅ 0%nat None None 0 [] 0%nat.

(** ** Computations with state and exceptions *)

Inductive outcome (A : Type) : Type :=
  | Ok (a : A)
  | Throw (e : exn).
Arguments Ok {A} a.
Arguments Throw {A} e.

Definition M (A : Type) : Type := World → outcome A * World.

#[global] Instance M_ret : MRet M := λ A a w, (Ok a, w).

#[global] Instance M_bind : MBind M := λ A B f m w,
  match m w with
  | (Ok a, w') => f a w'
  | (Throw e, w') => (Throw e, w')
  end.

Definition throw {A : Type} (e : exn) : M A := λ w, (Throw e, w).

(** [try { body } catch (error) { handler }]. *)
Definition try_catch {A : Type} (body : M A) (handler : exn → M A) : M A :=
  λ w, match body w with
       | (Ok a, w') => (Ok a, w')
       | (Throw e, w') => handler e w'
       end.

Definition modify (f : World → World) : M unit := λ w, (Ok tt, f w).
Definition reads {A : Type} (f : World → A) : M A := λ w, (Ok (f w), w).

(** ** Runtime primitives *)

(** [Date.now()]: the clock may move on after each reading. *)
Definition Date_now : M Z := λ w,
  (Ok (clock w), set_clock (clock w + hd 0 (drift w)) (tl (drift w)) w).

Definition localStorage_getItem (k : string) : M (option item) :=
  reads (λ w, localStorage w !! k).

Definition localStorage_setItem (k : string) (v : item) : M unit :=
  modify (λ w, set_localStorage (<[k := v]> (localStorage w)) w).

Definition localStorage_removeItem (k : string) : M unit :=
  modify (λ w, set_localStorage (delete k (localStorage w)) w).

Definition JSON_parse (s : item) : M json :=
  match s with
  | Decoded j => mret j
  | Empty | Malformed => throw SyntaxError
  end.

(** [JSON.stringify] of an object literal: undefined properties are
    omitted. *)
Fixpoint defined_fields (o : list (string * value)) : list (string * json) :=
  match o with
  | [] => []
  | (k, J j) :: rest => (k, j) :: defined_fields rest
  | (_, Undefined) :: rest => defined_fields rest
  end.

Definition JSON_stringify_literal (o : list (string * value)) : item :=
  Decoded (JObj (defined_fields o)).

Definition JSON_stringify (j : json) : item := Decoded j.

(** Property read [base.k] for the keys the code uses ([expiresAt],
    [user], [username]: none of them is inherited from a prototype). *)
Definition get_prop (base : json) (k : string) : M value :=
  match base with
  | JNull => throw TypeError
  | JObj fields =>
      mret (match obj_get k fields with Some v => J v | None => Undefined end)
  | _ => mret Undefined
  end.

Definition get_prop_value (base : value) (k : string) : M value :=
  match base with
  | Undefined => throw TypeError
  | J j => get_prop j k
  end.

(** Assignment [base.k = v] in strict mode.  A named property put on an
    array is not part of what JSON.stringify later writes. *)
Definition set_prop (base : json) (k : string) (v : json) : M json :=
  match base with
  | JObj fields => mret (JObj (obj_set k v fields))
  | JArr elems => mret (JArr elems)
  | _ => throw TypeError
  end.

(** [setTimeout(callback, delay)] for the one callback the code schedules. *)
Definition setTimeout (delay : Z) : M nat := λ w,
  (Ok (nextHandle w),
   set_timeouts (<[nextHandle w := clock w + delay]> (timeouts w))
     (S (nextHandle w)) w).

Definition clearTimeout (h : nat) : M unit :=
  modify (λ w, set_timeouts (delete h (timeouts w)) (nextHandle w) w).

(** Calling the host's expiry callback. *)
Definition invoke (cb : nat) : M unit :=
  modify (λ w, set_expired_log (cb :: expired_log w) w).

(** ** The SessionManager class *)

Section SessionManager.
Context `{rt : Runtime}.

Definition SESSION_KEY : string := "learnpath_session".
Definition TIMEOUT_DURATION : Z := 15 * 60 * 1000.
Definition CHECK_INTERVAL : Z := 60000.

(** ToNumber, as applied to a property read. *)
Definition ToNumber (v : value) : M number :=
  match v with
  | Undefined => mret NaN
  | J JNull => mret (Num 0)
  | J (JBool b) => mret (Num (if b then 1 else 0))
  | J (JNum n) => mret (Num n)
  | J (JStr s) => mret (StringToNumber s)
  | J j =>
      match ToPrimitive_number j with
      | Some n => mret n
      | None => throw TypeError
      end
  end.

(** A property read in a numeric context. *)
Definition read_number (base : json) (k : string) : M number :=
  v ← get_prop base k;
  ToNumber v.

Definition stopActivityTimer : M unit :=
  timer ← reads activityTimer;
  match timer with
  | Some h => clearTimeout h;; modify (set_activityTimer None)
  | None => mret tt
  end.

(** The body of the scheduled callback is [activityTimer_callback]
    below; the pending timeout is identified by its handle. *)
Definition startActivityTimer : M unit :=
  stopActivityTimer;;
  h ← setTimeout CHECK_INTERVAL;
  modify (set_activityTimer (Some h)).

Definition clearSession : M unit :=
  localStorage_removeItem SESSION_KEY;;
  stopActivityTimer.

Definition saveSession (user : value) : M unit :=
  now ← Date_now;
  let sessionData :=
    [("user"%string, user);
     ("loginTime"%string, J (JNum now));
     ("lastActivity"%string, J (JNum now));
     ("expiresAt"%string, J (JNum (now + TIMEOUT_DURATION)))] in
  localStorage_setItem SESSION_KEY (JSON_stringify_literal sessionData);;
  startActivityTimer;;
  (* console.log evaluates user.username *)
  _ ← get_prop_value user "username";
  mret tt.

(** Returns [JNull] for JavaScript's [null]. *)
Definition getSession : M json :=
  try_catch
    (sessionStr ← localStorage_getItem SESSION_KEY;
     match sessionStr with
     | None | Some Empty => mret JNull      (* !sessionStr *)
     | Some text =>
         sessionData ← JSON_parse text;
         now ← Date_now;
         e ← read_number sessionData "expiresAt";
         if js_gt (Num now) e then
           clearSession;;
           mret JNull
         else mret sessionData
     end)
    (λ error,
       clearSession;;
       mret JNull).

Definition updateActivity : M unit :=
  (* the call is counted on entry *)
  modify (λ w, set_updateActivity_calls (S (updateActivity_calls w)) w);;
  sessionData ← getSession;
  if negb (truthy sessionData) then mret tt
  else
    now ← Date_now;
    sessionData ← set_prop sessionData "lastActivity" (JNum now);
    sessionData ← set_prop sessionData "expiresAt" (JNum (now + TIMEOUT_DURATION));
    localStorage_setItem SESSION_KEY (JSON_stringify sessionData);;
    startActivityTimer.

Definition isLoggedIn : M bool :=
  session ← getSession;
  mret (match session with JNull => false | _ => true end).

(** [session?.user || null]. *)
Definition getCurrentUser : M json :=
  session ← getSession;
  user ← match session with
         | JNull => mret Undefined
         | _ => get_prop session "user"
         end;
  mret (match user with
        | J j => if truthy j then j else JNull
        | Undefined => JNull
        end).

Definition setOnSessionExpired (callback : nat) : M unit :=
  modify (set_onSessionExpired (Some callback)).

(** The function passed to [setTimeout] by [startActivityTimer]. *)
Definition activityTimer_callback : M unit :=
  session ← getSession;
  if negb (truthy session) then mret tt
  else
    now ← Date_now;
    e ← read_number session "expiresAt";
    if js_gt (Num now) e then
      clearSession;;
      cb ← reads onSessionExpired;
      match cb with
      | Some f => invoke f
      | None => mret tt
      end
    else startActivityTimer.

Definition getTimeRemaining : M number :=
  session ← getSession;
  if negb (truthy session) then mret (Num 0)
  else
    now ← Date_now;
    e ← read_number session "expiresAt";
    mret (minutes_left (js_sub e (Num now))).

Definition extendSession : M unit := updateActivity.

(** ** Activity tracking *)

Definition trackActivity : M unit := updateActivity.

Definition throttleDelay : Z := 30000.

(** The listener registered for mousedown, mousemove, keypress, scroll,
    touchstart and click. *)
Definition handleActivity : M unit :=
  now ← Date_now;
  last ← reads lastActivityTime;
  if throttleDelay <? now - last then
    trackActivity;;
    modify (set_lastActivityTime now)
  else mret tt.

(** The axios interceptors: request, and successful response. *)
Definition request_interceptor : M unit := trackActivity.
Definition response_interceptor : M unit := trackActivity.

(** [require] is not defined in an ES module: the call throws. *)
Definition js_require (path : string) : M unit := throw ReferenceError.

(** The error branch of the response interceptor on status 401: it asks
    [require] for the manager before it calls clearSession(). *)
Definition response_unauthorized : M unit :=
  js_require "../utils/sessionManager";;
  clearSession.

(** ** Callbacks as events *)

(** Everything the host, the DOM, the API client and the timer queue can
    make happen. *)
Inductive event : Type :=
  | SaveSession (user : value)
  | GetSession
  | UpdateActivity
  | ClearSession
  | IsLoggedIn
  | GetCurrentUser
  | SetOnSessionExpired (callback : nat)
  | GetTimeRemaining
  | ExtendSession
  | Interaction
  | ApiRequest
  | ApiResponse
  | ApiUnauthorized
  | TimerFires (h : nat).

Definition void {A : Type} (m : M A) : M unit := _ ← m; mret tt.

(** A due timeout leaves the queue, then its callback runs. *)
Definition fire (h : nat) : M unit :=
  q ← reads timeouts;
  now ← reads clock;
  match q !! h with
  | Some due =>
      if due <=? now then clearTimeout h;; activityTimer_callback
      else mret tt
  | None => mret tt
  end.

Definition run (e : event) : M unit :=
  match e with
  | SaveSession user => saveSession user
  | GetSession => void getSession
  | UpdateActivity => updateActivity
  | ClearSession => clearSession
  | IsLoggedIn => void isLoggedIn
  | GetCurrentUser => void getCurrentUser
  | SetOnSessionExpired callback => setOnSessionExpired callback
  | GetTimeRemaining => void getTimeRemaining
  | ExtendSession => extendSession
  | Interaction => handleActivity
  | ApiRequest => request_interceptor
  | ApiResponse => response_interceptor
  | ApiUnauthorized => response_unauthorized
  | TimerFires h => fire h
  end.

(** The world a callback leaves behind, whether it returns or throws. *)
Definition exec (e : event) (w : World) : World := (run e w).2.

(** A callback that runs within the millisecond [t]. *)
Definition at_instant (t : Z) (w : World) : World := set_clock t [] w.

Definition exec_at (t : Z) (e : event) (w : World) : World :=
  exec e (at_instant t w).

(** The pending timeout that is due first. *)
Definition earliest (q : gmap nat Z) : option (nat * Z) :=
  foldr (λ hd acc,
           match acc with
           | Some best => if hd.2 <? best.2 then Some hd else Some best
           | None => Some hd
           end) None (map_to_list q).

(** The timer queue between two host actions: every timeout due by [t]
    fires at its due instant, in order. [None]: out of fuel. *)
Fixpoint run_timers (fuel : nat) (t : Z) (w : World) : option World :=
  match earliest (timeouts w) with
  | Some (h, due) =>
      if due <=? t then
        match fuel with
        | O => None
        | S fuel' =>
            run_timers fuel' t
              (exec_at (Z.max due (clock w)) (TimerFires h) w)
        end
      else Some w
  | None => Some w
  end.

End SessionManager.

(** ** What the elementary operations do to the world *)

Definition ticked (w : World) : World :=
  set_clock (clock w + hd 0 (drift w)) (tl (drift w)) w.

Definition stopped (w : World) : World :=
  match activityTimer w with
  | Some h =>
      set_activityTimer None
        (set_timeouts (delete h (timeouts w)) (nextHandle w) w)
  | None => w
  end.

Definition started (w : World) : World :=
  let w1 := stopped w in
  set_activityTimer (Some (nextHandle w1))
    (set_timeouts (<[nextHandle w1 := clock w1 + CHECK_INTERVAL]> (timeouts w1))
       (S (nextHandle w1)) w1).

Definition cleared (w : World) : World :=
  stopped (set_localStorage (delete SESSION_KEY (localStorage w)) w).

Definition stored (v : item) (w : World) : World :=
  set_localStorage (<[SESSION_KEY := v]> (localStorage w)) w.

Definition counted (w : World) : World :=
  set_updateActivity_calls (S (updateActivity_calls w)) w.

(** The record [updateActivity] writes back at instant [now]. *)
Definition renewed (now : Z) (fields : list (string * json))
  : list (string * json) :=
  obj_set "expiresAt" (JNum (now + TIMEOUT_DURATION))
    (obj_set "lastActivity" (JNum now) fields).


(** ** Vocabulary of the properties *)

(** The store holds a record (an object) whose deadline is the instant [e]. *)
Definition holds_record (w : World) (fields : list (string * json)) (e : Z)
  : Prop :=
  localStorage w !! SESSION_KEY = Some (Decoded (JObj fields))
  ∧ obj_get "expiresAt" fields = Some (JNum e).

(** Payloads that are not a session record: text that does not parse, and
    objects without a deadline. *)
Inductive corrupt : item → Prop :=
  | corrupt_empty : corrupt Empty
  | corrupt_malformed : corrupt Malformed
  | corrupt_no_deadline fields :
      obj_get "expiresAt" fields = None → corrupt (Decoded (JObj fields)).

(** A timed trace of callbacks, each within one millisecond. *)
Definition play `{rt : Runtime} (trace : list (Z * event)) (w : World) : World :=
  foldl (λ w' te, exec_at te.1 te.2 w') w trace.

(** Every pending timeout is the one the manager holds the handle of, and
    handles are handed out in increasing order. *)
Definition timers_wf (w : World) : Prop :=
  ∀ h due, timeouts w !! h = Some due →
    activityTimer w = Some h ∧ (h < nextHandle w)%nat.

(** A time field of a record. *)
Definition instant_of (k : string) (fields : list (string * json)) : option Z :=
  match obj_get k fields with
  | Some (JNum n) => Some n
  | _ => None
  end.

(** [expiresAt == lastActivity + TIMEOUT_DURATION], and
    [lastActivity <= expiresAt]. *)
Definition deadline_invariant (fields : list (string * json)) : bool :=
  match instant_of "lastActivity" fields, instant_of "expiresAt" fields with
  | Some a, Some e => (e =? a + TIMEOUT_DURATION) && (a <=? e)
  | _, _ => false
  end.

(** [loginTime <= lastActivity]. *)
Definition login_invariant (fields : list (string * json)) : bool :=
  match instant_of "loginTime" fields, instant_of "lastActivity" fields with
  | Some l, Some a => l <=? a
  | _, _ => false
  end.

(** The record invariant of the data model. *)
Definition record_invariant (fields : list (string * json)) : bool :=
  deadline_invariant fields && login_invariant fields.

(** The stored payload is one [updateActivity] can assign properties to:
    it does not decode to a truthy primitive. *)
Definition assignable (w : World) : Prop :=
  ∀ j, localStorage w !! SESSION_KEY = Some (Decoded j) →
    truthy j = true → (∃ fields, j = JObj fields) ∨ (∃ elems, j = JArr elems).

(** The record [saveSession] writes at instant [now]. *)
Definition new_record (user : value) (now : Z) : list (string * json) :=
  defined_fields
    [("user"%string, user);
     ("loginTime"%string, J (JNum now));
     ("lastActivity"%string, J (JNum now));
     ("expiresAt"%string, J (JNum (now + TIMEOUT_DURATION)))].

(** A computation keeps a property of the world, whether it returns or
    throws. *)
Definition preserves {A : Type} (P : World → Prop) (m : M A) : Prop :=
  ∀ w r w', P w → m w = (r, w') → P w'.

Definition log_is (l : list nat) (w : World) : Prop := expired_log w = l.
Definition calls_are (n : nat) (w : World) : Prop := updateActivity_calls w = n.
Definition stamp_is (t : Z) (w : World) : Prop := lastActivityTime w = t.

(** The events that come from the timer queue. *)
Definition is_timer (e : event) : bool :=
  match e with
  | TimerFires _ => true
  | _ => false
  end.

(** A burst of interaction events at the given instants. *)
Definition interactions (ts : list Z) : list (Z * event) :=
  map (λ t, (t, Interaction)) ts.

(** The session slot is empty, or holds a record that satisfies the record
    invariant and was last renewed no later than [t]. *)
Definition record_ok_at (t : Z) (w : World) : Prop :=
  match localStorage w !! SESSION_KEY with
  | None => True
  | Some (Decoded (JObj fields)) =>
      record_invariant fields = true
      ∧ ∃ a, instant_of "lastActivity" fields = Some a ∧ a ≤ t
  | Some _ => False
  end.

(** The session slot is what it was, or has been emptied. *)
Definition slot_kept_or_emptied (s : option item) (w : World) : Prop :=
  localStorage w !! SESSION_KEY = None ∨ localStorage w !! SESSION_KEY = s.

(** The events that write a record. *)
Definition is_write (e : event) : bool :=
  match e with
  | SaveSession _ | UpdateActivity | ExtendSession | Interaction
  | ApiRequest | ApiResponse => true
  | _ => false
  end.

(** A trace along which the wall clock never goes back, from [t] on. *)
Fixpoint monotone (t : Z) (trace : list (Z * event)) : Prop :=
  match trace with
  | [] => True
  | (t', _) :: rest => t ≤ t' ∧ monotone t' rest
  end.

(** ** Closed runs *)

(** The principal of the specification's scenario, [{id: 1}]. *)
Definition alice : value := J (JObj [("id"%string, JNum 1)]).

(** A page where [alice] logged in at instant 0. *)
Definition logged_in : World :=
  @exec_at plain_runtime 0 (SaveSession alice) fresh_world.

(** The same page one millisecond after the deadline, nothing having
    happened in between. *)
Definition overdue : World := at_instant 900001 logged_in.

(** A record without [expiresAt], written into the store by hand. *)
Definition no_deadline_record : list (string * json) :=
  [("user"%string, JObj [("id"%string, JNum 1)]);
   ("loginTime"%string, JNum 0);
   ("lastActivity"%string, JNum 0)].

Definition tampered : World :=
  at_instant 5000 (stored (Decoded (JObj no_deadline_record)) fresh_world).

(** Text that is not JSON, written into the store by hand. *)
Definition garbled : World :=
  at_instant 5000 (stored Malformed fresh_world).

(** The scenario of the specification: login at 0, activity at 500000, a
    read at 1450000, the timer queue running in between and afterwards; the
    host has registered callback 7.  The result lists the deadline after
    login, the deadline after the renewal, what the read returns and the
    world long after. *)
Definition expiry_scenario
  : option (option Z * option Z * outcome json * World) :=
  let deadline w :=
    match localStorage w !! SESSION_KEY with
    | Some (Decoded (JObj fields)) => instant_of "expiresAt" fields
    | _ => None
    end in
  let w0 := @exec_at plain_runtime 0 (SetOnSessionExpired 7%nat) fresh_world in
  let w1 := @exec_at plain_runtime 0 (SaveSession alice) w0 in
  w2 ← @run_timers plain_runtime 100 500000 w1;
  let w3 := @exec_at plain_runtime 500000 UpdateActivity w2 in
  w4 ← @run_timers plain_runtime 100 1450000 w3;
  let r := @getSession plain_runtime (at_instant 1450000 w4) in
  w5 ← @run_timers plain_runtime 100 86400000 r.2;
  Some (deadline w1, deadline w3, r.1, w5).

(** A timer callback during which the clock moves from 1400000 to 1400001,
    on a record that expires at 1400000. *)
Definition racing : World :=
  let w0 := @exec_at plain_runtime 0 (SetOnSessionExpired 7%nat) fresh_world in
  let w1 := @exec_at plain_runtime 500000 (SaveSession alice) w0 in
  set_clock 1400000 [1] w1.

(** ** The callers: App and SessionStatus *)

(** [a <= b] on numbers: false as soon as one side is NaN. *)
Definition js_le (a b : number) : bool :=
  match a, b with
  | Num x, Num y => x <=? y
  | _, _ => false
  end.

(** A page reload: [localStorage] survives; the module is evaluated anew,
    so the manager's fields and the tracker's stamp have their initial
    values and the old page's timeouts are gone. *)
Definition reload (w : World) : World :=
  mkWorld (clock w) (drift w) (localStorage w) ∅ 0%nat None None 0
    (expired_log w) (updateActivity_calls w).

Section Callers.
Context `{rt : Runtime}.

(** The body of the App's 30-second interval; the result is what it
    hands to [setTimeRemaining] and to [setSessionWarning]. *)
Definition warningInterval_callback : M (number * bool) :=
  remaining ← getTimeRemaining;
  warning ← (if js_le remaining (Num 2) && js_gt remaining (Num 0)
             then isLoggedIn
             else mret false);
  mret (remaining, warning).

(** The App's start-up effect up to the registration of the expiry
    callback; the result is the user it hands to [setUser] when it
    restores a session (and switches to the dashboard). *)
Definition App_restore (callback : nat) : M (option value) :=
  savedSession ← getSession;
  restored ← (if truthy savedSession then
                user ← get_prop savedSession "user";
                (* console.log evaluates savedSession.user.username *)
                _ ← get_prop_value user "username";
                mret (Some user)
              else mret None);
  setOnSessionExpired callback;;
  mret restored.

(** SessionStatus: what [updateStatus] hands to [setTimeRemaining] and to
    [setIsActive]. *)
Definition updateStatus : M (number * bool) :=
  remaining ← getTimeRemaining;
  loggedIn ← isLoggedIn;
  mret (remaining, loggedIn).

Definition getColor (timeRemaining : number) : string :=
  if js_le timeRemaining (Num 2) then "error"
  else if js_le timeRemaining (Num 5) then "warning"
  else "success".

(** What SessionStatus renders: nothing when inactive, else the colour of
    the chip and the number of its label. *)
Definition SessionStatus_chip (timeRemaining : number) (isActive : bool)
  : option (string * number) :=
  if negb isActive then None
  else Some (getColor timeRemaining, timeRemaining).

End Callers.

(** ** Vocabulary of the further properties *)

(** The manager holds the handle of the one pending timeout, due at
    [due]. *)
Definition armed_at (due : Z) (w : World) : Prop :=
  ∃ h, activityTimer w = Some h ∧ timeouts w = {[h := due]}.

(** Interaction instants, each more than the throttle interval and at
    most the session timeout after the one before; [t] is the instant
    before the first. *)
Fixpoint paced (t : Z) (ts : list Z) : Prop :=
  match ts with
  | [] => True
  | t' :: rest =>
      throttleDelay < t' - t ∧ t' - t ≤ TIMEOUT_DURATION ∧ paced t' rest
  end.

(** The session slot, the timeout queue and the manager's handle are what
    they were, or the session slot has been emptied. *)
Definition kept_or_signed_out (s : option item) (q : gmap nat Z)
    (a : option nat) (w : World) : Prop :=
  (localStorage w !! SESSION_KEY = s ∧ timeouts w = q ∧ activityTimer w = a)
  ∨ localStorage w !! SESSION_KEY = None.

(** Every stored record is being polled: a check is pending, due at most
    one check interval after [t]. *)
Definition watched (t : Z) (w : World) : Prop :=
  ∀ fields, localStorage w !! SESSION_KEY = Some (Decoded (JObj fields)) →
    ∃ due, armed_at due w ∧ due ≤ t + CHECK_INTERVAL.

Definition polled (t : Z) (w : World) : Prop := timers_wf w ∧ watched t w.

(** The instant of the last event of a trace, [t] for the empty one. *)
Definition last_instant (t : Z) (trace : list (Z * event)) : Z :=
  default t (last (trace.*1)).

(** Instants each at most [g] after the one before; [t] is the instant
    before the first. *)
Fixpoint gaps_within (g : Z) (t : Z) (ts : list Z) : Prop :=
  match ts with
  | [] => True
  | t' :: rest => t' ≤ t + g ∧ gaps_within g t' rest
  end.

(** * Properties *)

Ltac monad_unfold :=
  unfold mbind, M_bind, mret, M_ret, reads, modify, throw, try_catch in *.

(** ** Property lists *)

Lemma obj_get_set_eq k v fields : obj_get k (obj_set k v fields) = Some v.
Proof.
  induction fields as [|[k' v'] rest IH]; simpl.
  - by rewrite String.eqb_refl.
  - destruct (String.eqb k k') eqn:E; simpl.
    + by rewrite String.eqb_refl.
    + by rewrite E.
Qed.

Lemma obj_get_set_ne k k' v fields :
  k ≠ k' → obj_get k' (obj_set k v fields) = obj_get k' fields.
Proof.
  intros Hne. induction fields as [|[k0 v0] rest IH]; simpl.
  - destruct (String.eqb k' k) eqn:E; [|done].
    apply String.eqb_eq in E. congruence.
  - destruct (String.eqb k k0) eqn:E; simpl.
    + apply String.eqb_eq in E. subst k0.
      destruct (String.eqb k' k) eqn:E'; [|done].
      apply String.eqb_eq in E'. congruence.
    + by rewrite IH.
Qed.

(** Writing back the value a property already has changes nothing. *)
Lemma obj_set_same k v fields :
  obj_get k fields = Some v → obj_set k v fields = fields.
Proof.
  induction fields as [|[k' v'] rest IH]; simpl; [done|].
  destruct (String.eqb k k') eqn:E.
  - apply String.eqb_eq in E. by intros [= ->]; subst.
  - intros G. by rewrite IH.
Qed.

(** ** Elementary operations *)

(** With a steady clock a reading leaves the world as it is. *)
Lemma ticked_steady w : drift w = [] → ticked w = w.
Proof.
  destruct w; unfold ticked, set_clock; simpl; intros ->; simpl.
  by rewrite Z.add_0_r.
Qed.

Lemma clock_stopped w : clock (stopped w) = clock w.
Proof. unfold stopped. by destruct (activityTimer w). Qed.

Lemma drift_stopped w : drift (stopped w) = drift w.
Proof. unfold stopped. by destruct (activityTimer w). Qed.

Lemma localStorage_stopped w : localStorage (stopped w) = localStorage w.
Proof. unfold stopped. by destruct (activityTimer w). Qed.

Lemma onSessionExpired_stopped w :
  onSessionExpired (stopped w) = onSessionExpired w.
Proof. unfold stopped. by destruct (activityTimer w). Qed.

Lemma lastActivityTime_stopped w :
  lastActivityTime (stopped w) = lastActivityTime w.
Proof. unfold stopped. by destruct (activityTimer w). Qed.

Lemma expired_log_stopped w : expired_log (stopped w) = expired_log w.
Proof. unfold stopped. by destruct (activityTimer w). Qed.

Lemma updateActivity_calls_stopped w :
  updateActivity_calls (stopped w) = updateActivity_calls w.
Proof. unfold stopped. by destruct (activityTimer w). Qed.

Lemma nextHandle_stopped w : nextHandle (stopped w) = nextHandle w.
Proof. unfold stopped. by destruct (activityTimer w). Qed.

Lemma activityTimer_stopped w : activityTimer (stopped w) = None.
Proof. unfold stopped. by destruct (activityTimer w) eqn:E. Qed.

Create Rewrite HintDb world.

#[local] Hint Rewrite clock_stopped drift_stopped localStorage_stopped
  onSessionExpired_stopped lastActivityTime_stopped expired_log_stopped
  updateActivity_calls_stopped nextHandle_stopped activityTimer_stopped
  : world.

(** Reads fields through the elementary operations. *)
Ltac world_fields :=
  cbn [clock drift localStorage timeouts nextHandle activityTimer
       onSessionExpired lastActivityTime expired_log updateActivity_calls
       set_clock set_localStorage set_timeouts set_activityTimer
       set_onSessionExpired set_lastActivityTime set_expired_log
       set_updateActivity_calls fst snd] in *.

Ltac world_simpl :=
  unfold started, cleared, stored, counted, ticked in *;
  repeat (world_fields; autorewrite with world in *);
  world_fields.

Section Facts.
Context `{rt : Runtime}.

Lemma stopActivityTimer_eq w : stopActivityTimer w = (Ok tt, stopped w).
Proof.
  unfold stopActivityTimer, stopped, clearTimeout. monad_unfold.
  by destruct (activityTimer w).
Qed.

Lemma startActivityTimer_eq w : startActivityTimer w = (Ok tt, started w).
Proof.
  unfold startActivityTimer, started, setTimeout. monad_unfold.
  by rewrite stopActivityTimer_eq.
Qed.

Lemma clearSession_eq w : clearSession w = (Ok tt, cleared w).
Proof.
  unfold clearSession, cleared, localStorage_removeItem. monad_unfold.
  by rewrite stopActivityTimer_eq.
Qed.

(** The 401 branch stops at [require]: nothing is cleared. *)
Lemma response_unauthorized_throws w :
  response_unauthorized w = (Throw ReferenceError, w).
Proof. done. Qed.

(** *** getSession, case by case *)

Lemma getSession_absent w :
  localStorage w !! SESSION_KEY = None → getSession w = (Ok JNull, w).
Proof.
  intros E. unfold getSession, localStorage_getItem. monad_unfold.
  by rewrite E.
Qed.

Lemma getSession_empty w :
  localStorage w !! SESSION_KEY = Some Empty → getSession w = (Ok JNull, w).
Proof.
  intros E. unfold getSession, localStorage_getItem. monad_unfold.
  by rewrite E.
Qed.

Lemma getSession_malformed w :
  localStorage w !! SESSION_KEY = Some Malformed →
  getSession w = (Ok JNull, cleared w).
Proof.
  intros E. unfold getSession, localStorage_getItem. monad_unfold.
  rewrite E. simpl. monad_unfold. by rewrite clearSession_eq.
Qed.

Lemma getSession_expired w fields e :
  localStorage w !! SESSION_KEY = Some (Decoded (JObj fields)) →
  obj_get "expiresAt" fields = Some (JNum e) →
  e < clock w →
  getSession w = (Ok JNull, cleared (ticked w)).
Proof.
  intros E G L. unfold getSession, localStorage_getItem. monad_unfold.
  rewrite E. simpl. unfold read_number, get_prop. monad_unfold.
  rewrite G. simpl.
  destruct (Z.ltb_spec e (clock w)); [|lia].
  by rewrite clearSession_eq.
Qed.

Lemma getSession_valid w fields e :
  localStorage w !! SESSION_KEY = Some (Decoded (JObj fields)) →
  obj_get "expiresAt" fields = Some (JNum e) →
  clock w ≤ e →
  getSession w = (Ok (JObj fields), ticked w).
Proof.
  intros E G L. unfold getSession, localStorage_getItem. monad_unfold.
  rewrite E. simpl. unfold read_number, get_prop. monad_unfold.
  rewrite G. simpl.
  by destruct (Z.ltb_spec e (clock w)); [lia|].
Qed.

Lemma getSession_no_deadline w fields :
  localStorage w !! SESSION_KEY = Some (Decoded (JObj fields)) →
  obj_get "expiresAt" fields = None →
  getSession w = (Ok (JObj fields), ticked w).
Proof.
  intros E G. unfold getSession, localStorage_getItem. monad_unfold.
  rewrite E. simpl. unfold read_number, get_prop. monad_unfold.
  by rewrite G.
Qed.

(** getSession never throws; it leaves the world as it was up to a clock
    reading and a purge, and what it returns is [null] or the decoded
    payload. *)
Lemma getSession_shape w :
  ∃ j w', getSession w = (Ok j, w')
    ∧ (w' = w ∨ w' = cleared w ∨ w' = ticked w ∨ w' = cleared (ticked w))
    ∧ (j = JNull
       ∨ (localStorage w !! SESSION_KEY = Some (Decoded j) ∧ w' = ticked w)).
Proof.
  unfold getSession, localStorage_getItem, JSON_parse, read_number, get_prop,
    ToNumber, Date_now.
  monad_unfold. fold (ticked w).
  repeat (case_match; simplify_eq/=; try rewrite clearSession_eq in *;
          simplify_eq/=; eauto 10).
Qed.

End Facts.

Section Claims.
Context `{rt : Runtime}.

Lemma updateActivity_eq w :
  updateActivity w =
  match getSession (counted w) with
  | (Ok j, w1) =>
      if truthy j then
        match j with
        | JObj fields =>
            (Ok tt,
             started (stored (Decoded (JObj (renewed (clock w1) fields)))
                        (ticked w1)))
        | JArr elems =>
            (Ok tt, started (stored (Decoded (JArr elems)) (ticked w1)))
        | _ => (Throw TypeError, ticked w1)
        end
      else (Ok tt, w1)
  | (Throw e, w1) => (Throw e, w1)
  end.
Proof.
  unfold updateActivity. monad_unfold. fold (counted w).
  destruct (getSession (counted w)) as [[j|e] w1]; [|done].
  destruct j as [|[]|n|s|elems|fields]; simpl; try done.
  - by destruct (n =? 0).
  - by destruct (String.eqb s "").
  - unfold Date_now, localStorage_setItem. monad_unfold.
    by rewrite startActivityTimer_eq.
  - unfold Date_now, localStorage_setItem. monad_unfold.
    by rewrite startActivityTimer_eq.
Qed.

(** *** Timer discipline *)

Lemma timers_wf_stopped_empty w : timers_wf w → timeouts (stopped w) = ∅.
Proof.
  intros Hwf. apply map_empty. intros h. unfold stopped.
  destruct (activityTimer w) as [h0|] eqn:E; simpl.
  - destruct (decide (h0 = h)) as [->|Hne]; [apply lookup_delete_eq|].
    rewrite lookup_delete_ne by done.
    destruct (timeouts w !! h) as [due|] eqn:L; [|done].
    destruct (Hwf h due L) as [? _]. congruence.
  - destruct (timeouts w !! h) as [due|] eqn:L; [|done].
    destruct (Hwf h due L) as [? _]. congruence.
Qed.

Lemma timers_wf_cleared_empty w : timers_wf w → timeouts (cleared w) = ∅.
Proof. intros Hwf. unfold cleared. by apply timers_wf_stopped_empty. Qed.

(** C1. For every store state holding a record whose expiresAt is
    strictly in the past at the time of the call, getSession() returns
    absent and leaves the store with no record under the session key
    (the other keys are untouched). *)
Theorem getSession_purges_expired_record w fields e :
  holds_record w fields e →
  e < clock w →
  ∃ w', getSession w = (Ok JNull, w')
        ∧ localStorage w' !! SESSION_KEY = None
        ∧ ∀ k, k ≠ SESSION_KEY → localStorage w' !! k = localStorage w !! k.
Proof.
  intros [Hitem Hdeadline] Hpast.
  exists (cleared (ticked w)). split; [by eapply getSession_expired|].
  world_simpl. split.
  - apply lookup_delete_eq.
  - intros k Hk. by rewrite lookup_delete_ne.
Qed.

(** C2 (amended). getSession() never throws on a corrupt payload.
    Non-empty text that does not parse is purged and absent is returned;
    the empty string yields absent and is left in the store; an object
    without expiresAt is returned as the session and stays stored. *)
Theorem getSession_on_corrupt_payload w payload :
  localStorage w !! SESSION_KEY = Some payload →
  corrupt payload →
  ∃ r w', getSession w = (Ok r, w')
    ∧ match payload with
      | Malformed => r = JNull ∧ localStorage w' !! SESSION_KEY = None
      | Empty => r = JNull ∧ w' = w
      | Decoded j => r = j ∧ localStorage w' = localStorage w
      end.
Proof.
  intros Hitem Hcorrupt. destruct Hcorrupt as [| |fields Hmissing].
  - exists JNull, w. by rewrite getSession_empty by done.
  - exists JNull, (cleared w). rewrite getSession_malformed by done.
    world_simpl. by rewrite lookup_delete_eq.
  - exists (JObj fields), (ticked w).
    by rewrite (getSession_no_deadline w fields) by done.
Qed.

(** C10. updateActivity() never resurrects an expired session: on a
    record whose expiresAt is strictly in the past it returns normally,
    removes the record, writes no renewed one and leaves no timer pending:
    the manager holds no handle, the timeout it held is cancelled, and the
    queue is empty whenever it held nothing but that timeout. *)
Theorem updateActivity_expired_is_purge w fields e :
  holds_record w fields e →
  e < clock w →
  ∃ w', updateActivity w = (Ok tt, w')
        ∧ localStorage w' !! SESSION_KEY = None
        ∧ activityTimer w' = None
        ∧ (∀ h, activityTimer w = Some h → timeouts w' !! h = None)
        ∧ (timers_wf w → timeouts w' = ∅).
Proof.
  intros [Hitem Hdeadline] Hpast.
  exists (cleared (ticked (counted w))).
  rewrite updateActivity_eq.
  rewrite (getSession_expired (counted w) fields e) by done.
  split; [done|]. split; [|split; [|split]].
  - world_simpl. apply lookup_delete_eq.
  - by world_simpl.
  - intros h Hh. unfold cleared, stopped, ticked, counted. world_fields.
    rewrite Hh. world_fields. apply lookup_delete_eq.
  - intros Hwf. by apply timers_wf_cleared_empty.
Qed.

(** *** Renewal *)

Lemma updateActivity_valid w fields e :
  holds_record w fields e →
  clock w ≤ e →
  updateActivity w =
  (Ok tt,
   started (stored (Decoded (JObj (renewed (clock (ticked w)) fields)))
              (ticked (ticked (counted w))))).
Proof.
  intros [Hitem Hdeadline] Hvalid. rewrite updateActivity_eq.
  by rewrite (getSession_valid (counted w) fields e).
Qed.

Lemma updateActivity_valid_steady w fields e :
  drift w = [] →
  holds_record w fields e →
  clock w ≤ e →
  updateActivity w =
  (Ok tt,
   started (stored (Decoded (JObj (renewed (clock w) fields))) (counted w))).
Proof.
  intros Hsteady Hrec Hvalid.
  rewrite (updateActivity_valid w fields e) by done.
  rewrite (ticked_steady w) by done.
  by rewrite !(ticked_steady (counted w)) by done.
Qed.

Lemma renewed_deadline now fields :
  obj_get "expiresAt" (renewed now fields)
  = Some (JNum (now + TIMEOUT_DURATION)).
Proof. apply obj_get_set_eq. Qed.

Lemma renewed_lastActivity now fields :
  obj_get "lastActivity" (renewed now fields) = Some (JNum now).
Proof.
  unfold renewed. rewrite obj_get_set_ne by done. apply obj_get_set_eq.
Qed.

Lemma renewed_other now fields k :
  k ≠ "expiresAt"%string → k ≠ "lastActivity"%string →
  obj_get k (renewed now fields) = obj_get k fields.
Proof.
  intros. unfold renewed. by rewrite !obj_get_set_ne.
Qed.

Lemma renewed_idempotent now fields :
  renewed now (renewed now fields) = renewed now fields.
Proof.
  unfold renewed at 1.
  rewrite (obj_set_same "lastActivity") by apply renewed_lastActivity.
  apply obj_set_same, renewed_deadline.
Qed.

Lemma holds_record_renewed now fields w :
  holds_record
    (started (stored (Decoded (JObj (renewed now fields))) w))
    (renewed now fields) (now + TIMEOUT_DURATION).
Proof.
  split; [|apply renewed_deadline].
  world_simpl. apply lookup_insert_eq.
Qed.

(** C7. updateActivity() is idempotent at a fixed instant: on a valid
    stored record, a second call within the same millisecond leaves the
    store exactly as the first call left it, with the same expiresAt. *)
Theorem updateActivity_idempotent_same_instant w fields e :
  drift w = [] →
  holds_record w fields e →
  clock w ≤ e →
  let w1 := exec UpdateActivity w in
  let w2 := exec UpdateActivity w1 in
  clock w1 = clock w ∧ clock w2 = clock w
  ∧ holds_record w1 (renewed (clock w) fields) (clock w + TIMEOUT_DURATION)
  ∧ holds_record w2 (renewed (clock w) fields) (clock w + TIMEOUT_DURATION)
  ∧ localStorage w2 = localStorage w1.
Proof.
  intros Hsteady Hrec Hvalid. unfold exec, run.
  rewrite (updateActivity_valid_steady w fields e) by done.
  cbn [snd].
  pose proof (holds_record_renewed (clock w) fields (counted w)) as Hrec1.
  set (r := renewed (clock w) fields) in *.
  set (w1 := started (stored (Decoded (JObj r)) (counted w))) in *.
  assert (Hclock : clock w1 = clock w) by (subst w1; by world_simpl).
  assert (Hdrift : drift w1 = []) by (subst w1; by world_simpl).
  rewrite (updateActivity_valid_steady w1 r (clock w + TIMEOUT_DURATION));
    [|done|done|rewrite Hclock; unfold TIMEOUT_DURATION; lia].
  cbn [snd]. rewrite Hclock. subst r. rewrite renewed_idempotent.
  split; [done|]. split; [by world_simpl|]. split; [done|]. split.
  - apply holds_record_renewed.
  - subst w1. world_simpl. apply insert_insert_eq.
Qed.

(** *** Reading the session *)

Lemma getTimeRemaining_valid w fields e :
  holds_record w fields e →
  clock w ≤ e →
  getTimeRemaining w =
  (Ok (Num (Z.max 0 ((e - clock (ticked w)) / 60000))), ticked (ticked w)).
Proof.
  intros [Hitem Hdeadline] Hvalid. unfold getTimeRemaining. monad_unfold.
  rewrite (getSession_valid w fields e) by done.
  simpl. unfold read_number, get_prop. monad_unfold. by rewrite Hdeadline.
Qed.

(** Integer division by the positive 60000 is the floor of the quotient. *)
Lemma minutes_floor x :
  60000 * (x / 60000) ≤ x < 60000 * (x / 60000 + 1).
Proof.
  pose proof (Z.div_mod x 60000 ltac:(lia)).
  pose proof (Z.mod_pos_bound x 60000 ltac:(lia)). lia.
Qed.

(** C8. getTimeRemaining() returns max(0, floor((expiresAt - now) / 60000))
    whenever a valid record exists, and 0 when no session exists: whenever
    getSession() returns absent, so when nothing is stored and when the
    stored record is expired and therefore purged on read. *)
Theorem getTimeRemaining_spec w :
  drift w = [] →
  (∀ fields e, holds_record w fields e → clock w ≤ e →
     getTimeRemaining w = (Ok (Num (Z.max 0 ((e - clock w) / 60000))), w))
  ∧ (∀ w', getSession w = (Ok JNull, w') →
     getTimeRemaining w = (Ok (Num 0), w'))
  ∧ (localStorage w !! SESSION_KEY = None →
     getTimeRemaining w = (Ok (Num 0), w))
  ∧ (∀ fields e, holds_record w fields e → e < clock w →
     ∃ w', getTimeRemaining w = (Ok (Num 0), w')
           ∧ localStorage w' !! SESSION_KEY = None).
Proof.
  intros Hsteady. split; [|split; [|split]].
  - intros fields e Hrec Hvalid.
    rewrite (getTimeRemaining_valid w fields e) by done.
    by rewrite !ticked_steady.
  - intros w' Hnull. unfold getTimeRemaining. monad_unfold.
    by rewrite Hnull.
  - intros Habsent. unfold getTimeRemaining. monad_unfold.
    by rewrite getSession_absent.
  - intros fields e [Hitem Hdeadline] Hpast. exists (cleared (ticked w)).
    unfold getTimeRemaining. monad_unfold.
    rewrite (getSession_expired w fields e) by done.
    split; [done|]. world_simpl. apply lookup_delete_eq.
Qed.

(** C9 (amended). On a valid record getCurrentUser() returns the record's
    user field when that field is truthy, and null when it is falsy or
    missing; it also returns null when the store holds no record. *)
Theorem getCurrentUser_spec w :
  (∀ fields e, holds_record w fields e → clock w ≤ e →
     ∃ w', getCurrentUser w =
           (Ok (match obj_get "user" fields with
                | Some u => if truthy u then u else JNull
                | None => JNull
                end), w')
           ∧ localStorage w' = localStorage w)
  ∧ (localStorage w !! SESSION_KEY = None →
     getCurrentUser w = (Ok JNull, w)).
Proof.
  split.
  - intros fields e [Hitem Hdeadline] Hvalid. exists (ticked w).
    unfold getCurrentUser. monad_unfold.
    rewrite (getSession_valid w fields e) by done.
    simpl. by destruct (obj_get "user" fields).
  - intros Habsent. unfold getCurrentUser. monad_unfold.
    by rewrite getSession_absent.
Qed.

(** *** Writes *)

Lemma saveSession_store user w :
  localStorage (exec (SaveSession user) w)
  = <[SESSION_KEY := Decoded (JObj (new_record user (clock w)))]>
      (localStorage w).
Proof.
  unfold exec, run, saveSession, Date_now, localStorage_setItem.
  monad_unfold. rewrite startActivityTimer_eq.
  unfold JSON_stringify_literal, new_record.
  destruct user as [|[]]; simpl; monad_unfold; by world_simpl.
Qed.

Lemma new_record_invariant user now :
  record_invariant (new_record user now) = true.
Proof.
  unfold record_invariant, deadline_invariant, login_invariant, instant_of,
    new_record, TIMEOUT_DURATION.
  destruct user; simpl;
    rewrite Z.eqb_refl; simpl; apply andb_true_intro; split; lia.
Qed.

Lemma renewed_deadline_invariant now fields :
  deadline_invariant (renewed now fields) = true.
Proof.
  unfold deadline_invariant, instant_of.
  rewrite renewed_lastActivity, renewed_deadline, Z.eqb_refl.
  unfold TIMEOUT_DURATION. simpl. lia.
Qed.

Lemma renewed_login_invariant now fields :
  login_invariant (renewed now fields) = true
  ↔ ∃ l, instant_of "loginTime" fields = Some l ∧ l ≤ now.
Proof.
  unfold login_invariant, instant_of.
  rewrite renewed_lastActivity, renewed_other by done.
  destruct (obj_get "loginTime" fields) as [[| | l | | |]|]; split;
    try done; try (by intros (? & ? & ?)).
  - intros Hle. exists l. split; [done|lia].
  - intros (l' & [= <-] & Hle). lia.
Qed.

(** C6 (amended). The record written by saveSession(user) satisfies
    expiresAt == lastActivity + TIMEOUT_DURATION and
    loginTime <= lastActivity <= expiresAt.  The record written by
    updateActivity() over a valid record satisfies
    expiresAt == lastActivity + TIMEOUT_DURATION and
    lastActivity <= expiresAt, keeps the stored loginTime, and satisfies
    loginTime <= lastActivity exactly when the stored loginTime is not
    after the instant of the call. *)
Theorem written_record_invariants w user :
  (localStorage (exec (SaveSession user) w) !! SESSION_KEY
   = Some (Decoded (JObj (new_record user (clock w))))
   ∧ record_invariant (new_record user (clock w)) = true)
  ∧ ∀ fields e, holds_record w fields e → clock w ≤ e →
    ∃ now, (drift w = [] → now = clock w)
      ∧ localStorage (exec UpdateActivity w) !! SESSION_KEY
        = Some (Decoded (JObj (renewed now fields)))
      ∧ deadline_invariant (renewed now fields) = true
      ∧ obj_get "loginTime" (renewed now fields) = obj_get "loginTime" fields
      ∧ (login_invariant (renewed now fields) = true
         ↔ ∃ l, instant_of "loginTime" fields = Some l ∧ l ≤ now).
Proof.
  split.
  - rewrite saveSession_store, lookup_insert_eq.
    split; [done|apply new_record_invariant].
  - intros fields e Hrec Hvalid.
    exists (clock (ticked w)). split; [intros Hs; by rewrite ticked_steady|].
    unfold exec, run. rewrite (updateActivity_valid w fields e) by done.
    cbn [snd]. split; [apply holds_record_renewed|].
    split; [apply renewed_deadline_invariant|].
    split; [by apply renewed_other|apply renewed_login_invariant].
Qed.

End Claims.

(** ** Frame reasoning *)

Section Frames.
Context `{rt : Runtime}.

Lemma preserves_ret {A} P (a : A) : preserves P (mret a).
Proof. intros w r w' HP [= _ <-]. done. Qed.

Lemma preserves_throw {A} P e : preserves P (@throw A e).
Proof. intros w r w' HP [= _ <-]. done. Qed.

Lemma preserves_reads {A} P (f : World → A) : preserves P (reads f).
Proof. intros w r w' HP [= _ <-]. done. Qed.

Lemma preserves_modify P f :
  (∀ w, P w → P (f w)) → preserves P (modify f).
Proof. intros Hf w r w' HP [= _ <-]. auto. Qed.

Lemma preserves_bind {A B} P (m : M A) (f : A → M B) :
  preserves P m → (∀ a, preserves P (f a)) → preserves P (m ≫= f).
Proof.
  intros Hm Hf w r w' HP. unfold mbind, M_bind.
  destruct (m w) as [[a|e] w1] eqn:E.
  - intros Hrun. eapply Hf; [|done]. eauto.
  - intros [= _ <-]. eauto.
Qed.

Lemma preserves_try_catch {A} P (m : M A) h :
  preserves P m → (∀ e, preserves P (h e)) → preserves P (try_catch m h).
Proof.
  intros Hm Hh w r w' HP. unfold try_catch.
  destruct (m w) as [[a|e] w1] eqn:E.
  - intros [= _ <-]. eauto.
  - intros Hrun. eapply Hh; [|done]. eauto.
Qed.

Lemma preserves_Date_now P :
  (∀ w, P w → P (ticked w)) → preserves P Date_now.
Proof. intros Hf w r w' HP [= _ <-]. by apply Hf. Qed.

Lemma preserves_stopActivityTimer P :
  (∀ w, P w → P (stopped w)) → preserves P stopActivityTimer.
Proof.
  intros Hf w r w' HP. rewrite stopActivityTimer_eq. intros [= _ <-]. auto.
Qed.

Lemma preserves_startActivityTimer P :
  (∀ w, P w → P (started w)) → preserves P startActivityTimer.
Proof.
  intros Hf w r w' HP. rewrite startActivityTimer_eq. intros [= _ <-]. auto.
Qed.

Lemma preserves_exec P e w :
  preserves P (run e) → P w → P (exec e w).
Proof.
  intros Hrun HP. unfold exec. destruct (run e w) as [r w'] eqn:E. eauto.
Qed.

End Frames.

(** Decomposes a program into its primitives; [leaf] closes the goals
    [∀ w, P w → P (f w)] left by the state-changing ones. *)
Ltac frame leaf :=
  repeat first
    [ apply preserves_ret
    | apply preserves_throw
    | apply preserves_reads
    | match goal with
      | |- preserves _ stopActivityTimer =>
          apply preserves_stopActivityTimer; leaf
      | |- preserves _ startActivityTimer =>
          apply preserves_startActivityTimer; leaf
      | |- preserves _ Date_now => apply preserves_Date_now; leaf
      | |- preserves _ (modify _) => apply preserves_modify; leaf
      | |- preserves _ (match ?x with _ => _ end) => destruct x
      end
    | apply preserves_bind; [|intros ?]
    | apply preserves_try_catch; [|intros ?] ].

Ltac unfold_manager :=
  unfold run, void, fire, activityTimer_callback, invoke, clearTimeout,
    handleActivity, request_interceptor,
    response_interceptor, response_unauthorized, js_require, trackActivity,
    extendSession, getTimeRemaining, setOnSessionExpired, getCurrentUser,
    isLoggedIn, updateActivity, getSession, saveSession, clearSession,
    read_number, ToNumber, set_prop, get_prop_value, get_prop, JSON_parse,
    localStorage_removeItem, localStorage_setItem, localStorage_getItem.

Ltac field_leaf P :=
  let w := fresh "w" in
  let HP := fresh "HP" in
  intros w HP; unfold P in *; world_simpl; try done.

Section Invariants.
Context `{rt : Runtime}.

(** *** The expiry callback log *)

Lemma quiet_run_keeps_log l e :
  is_timer e = false → preserves (log_is l) (run e).
Proof.
  intros Hq. destruct e; try discriminate Hq; unfold_manager;
    frame ltac:(field_leaf log_is).
Qed.

(** *** The throttle stamp and the call counter *)

Lemma getSession_keeps_calls n : preserves (calls_are n) getSession.
Proof. unfold_manager. frame ltac:(field_leaf calls_are). Qed.

Lemma updateActivity_keeps_stamp t : preserves (stamp_is t) updateActivity.
Proof. unfold_manager. frame ltac:(field_leaf stamp_is). Qed.

Lemma updateActivity_counts w :
  updateActivity_calls (updateActivity w).2 = S (updateActivity_calls w).
Proof.
  rewrite updateActivity_eq.
  destruct (getSession (counted w)) as [r w1] eqn:E.
  pose proof (getSession_keeps_calls (S (updateActivity_calls w))
                (counted w) r w1 eq_refl E) as Hcalls.
  unfold calls_are in Hcalls.
  destruct r as [j|?]; [|done].
  destruct (truthy j); [|done].
  destruct j; by world_simpl.
Qed.

(** *** Timer discipline *)

Lemma timers_wf_stopped w : timers_wf w → timers_wf (stopped w).
Proof.
  intros Hwf h due. rewrite timers_wf_stopped_empty by done.
  by rewrite lookup_empty.
Qed.

Lemma timers_wf_started w : timers_wf w → timers_wf (started w).
Proof.
  intros Hwf h due. unfold started. simpl.
  rewrite timers_wf_stopped_empty by done.
  rewrite lookup_insert_Some, lookup_empty.
  intros [[<- _]|[_ ?]]; [|done]. split; [done|lia].
Qed.

Lemma timers_wf_dequeue h w :
  timers_wf w →
  timers_wf (set_timeouts (delete h (timeouts w)) (nextHandle w) w).
Proof.
  intros Hwf h' due. simpl. rewrite lookup_delete_Some.
  intros [_ L]. exact (Hwf h' due L).
Qed.

Lemma run_keeps_timers_wf e : preserves timers_wf (run e).
Proof.
  destruct e; unfold_manager;
    frame ltac:(first [ apply timers_wf_stopped
                      | apply timers_wf_started
                      | apply timers_wf_dequeue
                      | field_leaf timers_wf ]).
Qed.

Lemma timers_wf_fresh : timers_wf fresh_world.
Proof. intros h due. simpl. by rewrite lookup_empty. Qed.

Lemma timers_wf_exec_at t e w : timers_wf w → timers_wf (exec_at t e w).
Proof.
  intros Hwf. unfold exec_at.
  apply (preserves_exec timers_wf); [apply run_keeps_timers_wf|exact Hwf].
Qed.

(** At most one timeout is ever pending along a trace that starts from a
    freshly loaded page. *)
Lemma timers_wf_play trace w : timers_wf w → timers_wf (play trace w).
Proof.
  revert w. induction trace as [|[t e] trace IH]; intros w Hwf; [done|].
  simpl. apply IH. by apply timers_wf_exec_at.
Qed.

End Invariants.

(** ** The expiry path *)

Section Expiry.
Context `{rt : Runtime}.

(** Reading a number changes nothing and depends on nothing in the world. *)
Lemma read_number_pure j k w r w' :
  read_number j k w = (r, w') →
  w' = w ∧ ∀ w0, read_number j k w0 = (r, w0).
Proof.
  unfold read_number, get_prop, ToNumber. monad_unfold.
  intros Hrun. repeat (case_match; simplify_eq/=); done.
Qed.

(** A session that getSession hands out was found not expired at the
    instant of the reading. *)
Lemma getSession_verdict w j w1 :
  getSession w = (Ok j, w1) →
  truthy j = true →
  w1 = ticked w
  ∧ ∃ n, (∀ w0, read_number j "expiresAt" w0 = (Ok n, w0))
         ∧ js_gt (Num (clock w)) n = false.
Proof.
  unfold getSession, localStorage_getItem, JSON_parse, Date_now.
  monad_unfold.
  destruct (localStorage w !! SESSION_KEY) as [[| |j0]|];
    try (rewrite ?clearSession_eq; by intros [= <- <-]).
  cbv beta iota. change (set_clock _ _ w) with (ticked w).
  destruct (read_number j0 "expiresAt" (ticked w)) as [[n|e] w2] eqn:R.
  2: { rewrite clearSession_eq. by intros [= <- <-]. }
  apply read_number_pure in R as [-> R].
  destruct (js_gt (Num (clock w)) n) eqn:G.
  { rewrite clearSession_eq. by intros [= <- <-]. }
  intros [= <- <-] _. eauto.
Qed.

Lemma getSession_keeps_log l : preserves (log_is l) getSession.
Proof. unfold_manager. frame ltac:(field_leaf log_is). Qed.

(** Within one millisecond the timer callback cannot reach its expiry
    branch: getSession() has already purged what is expired, and what it
    returns is not expired at that same instant. *)
Lemma activityTimer_callback_steady_silent w :
  drift w = [] →
  expired_log (activityTimer_callback w).2 = expired_log w.
Proof.
  intros Hsteady. unfold activityTimer_callback. monad_unfold.
  destruct (getSession w) as [[j|e] w1] eqn:E.
  - destruct (truthy j) eqn:T; simpl.
    + destruct (getSession_verdict w j w1 E T) as (-> & n & Hread & Hgt).
      rewrite (ticked_steady w) by done.
      unfold Date_now. cbv beta iota.
      change (set_clock _ _ w) with (ticked w).
      rewrite (ticked_steady w) by done.
      rewrite Hread. cbv beta iota.
      unfold js_gt in Hgt. rewrite Hgt, startActivityTimer_eq.
      by world_simpl.
    + exact (getSession_keeps_log _ _ _ _ eq_refl E).
  - exact (getSession_keeps_log _ _ _ _ eq_refl E).
Qed.

Lemma exec_steady_keeps_log e w :
  drift w = [] → expired_log (exec e w) = expired_log w.
Proof.
  intros Hsteady. destruct (is_timer e) eqn:T.
  - destruct e; try discriminate T. unfold exec, run, fire, clearTimeout.
    monad_unfold.
    destruct (timeouts w !! h) as [due|]; [|done].
    destruct (due <=? clock w); [|done].
    by rewrite activityTimer_callback_steady_silent.
  - apply (preserves_exec (log_is (expired_log w)));
      [by apply quiet_run_keeps_log|done].
Qed.

(** When every callback runs within one millisecond, no trace ever
    invokes the host's expiry callback. *)
Lemma play_never_notifies trace w :
  expired_log (play trace w) = expired_log w.
Proof.
  revert w. induction trace as [|[t e] trace IH]; intros w; [done|].
  simpl. rewrite IH. unfold exec_at. by rewrite exec_steady_keeps_log.
Qed.

Lemma run_timers_never_notifies fuel t w w' :
  run_timers fuel t w = Some w' → expired_log w' = expired_log w.
Proof.
  revert w. induction fuel as [|fuel IH]; intros w; simpl.
  - destruct (earliest (timeouts w)) as [[h due]|]; [|by intros [= <-]].
    destruct (due <=? t); [done|by intros [= <-]].
  - destruct (earliest (timeouts w)) as [[h due]|]; [|by intros [= <-]].
    destruct (due <=? t); [|by intros [= <-]].
    intros Hrun. rewrite (IH _ Hrun). unfold exec_at.
    by rewrite exec_steady_keeps_log.
Qed.

(** What one event does to the invocation log: it leaves the log alone,
    or it is a due timer tick on a page with a callback registered and a
    stored record whose deadline the clock passes between the reading
    inside getSession() and the tick's own; then the callback is invoked
    once, after the record and the timer handle are gone. *)
Lemma exec_log_cases w e :
  expired_log (exec e w) = expired_log w
  ∨ ∃ h due callback j deadline,
      e = TimerFires h
      ∧ timeouts w !! h = Some due ∧ due ≤ clock w
      ∧ onSessionExpired w = Some callback
      ∧ localStorage w !! SESSION_KEY = Some (Decoded j)
      ∧ (∀ w0, read_number j "expiresAt" w0 = (Ok (Num deadline), w0))
      ∧ clock w ≤ deadline < clock w + hd 0 (drift w)
      ∧ expired_log (exec e w) = callback :: expired_log w
      ∧ localStorage (exec e w) !! SESSION_KEY = None
      ∧ activityTimer (exec e w) = None.
Proof.
  destruct (is_timer e) eqn:Htimer.
  2: { left. apply (preserves_exec (log_is (expired_log w)));
         [by apply quiet_run_keeps_log|done]. }
  destruct e; try discriminate Htimer.
  unfold exec, run, fire, clearTimeout. monad_unfold.
  destruct (timeouts w !! h) as [due|] eqn:Hdue; [|by left].
  destruct (Z.leb_spec due (clock w)) as [Hle|Hlt]; [|by left].
  cbv beta iota.
  set (wq := set_timeouts (delete h (timeouts w)) (nextHandle w) w).
  unfold activityTimer_callback. monad_unfold.
  destruct (getSession wq) as [[j|ex] w1] eqn:E.
  2: { left. exact (getSession_keeps_log _ _ _ _ eq_refl E). }
  destruct (truthy j) eqn:T; cbn [negb].
  2: { left. exact (getSession_keeps_log _ _ _ _ eq_refl E). }
  destruct (getSession_verdict wq j w1 E T) as (-> & n & Hread & Hgt).
  destruct (getSession_shape wq) as (j' & w' & E' & _ & Hshape).
  rewrite E in E'. injection E' as <- _.
  destruct Hshape as [-> | [Hstore _]]; [done|].
  unfold Date_now. cbv beta iota. rewrite Hread. cbv beta iota.
  destruct (js_gt (Num (clock (ticked wq))) n) eqn:G.
  2: { left. rewrite startActivityTimer_eq. by world_simpl. }
  rewrite clearSession_eq. cbv beta iota.
  destruct n as [|deadline]; [done|].
  unfold js_gt in Hgt, G. apply Z.ltb_ge in Hgt. apply Z.ltb_lt in G.
  unfold invoke. monad_unfold.
  destruct (onSessionExpired (cleared _)) as [callback|] eqn:Hcb.
  2: { left. by world_simpl. }
  right. exists h, due, callback, j, deadline.
  revert Hcb. world_simpl. intros Hcb.
  repeat split; try done.
  - by rewrite lookup_delete_eq.
Qed.

(** C3. The expiration callback is invoked on timeout-driven clears only.
    Whatever one event does, either the invocation log is unchanged, or
    the event is a due timer tick, a callback is registered, the stored
    record's expiresAt was passed by the clock during that tick (so the
    tick's own check [now > expiresAt] succeeded), the record and the timer
    handle are cleared, and the registered callback was invoked exactly
    once. In particular no event other than a timer tick invokes it, an
    explicit clearSession() never does, and saveSession(u) followed by
    clearSession() leaves isLoggedIn() false with no callback invocation
    and no timer handle. *)
Theorem expiry_callback_only_on_timeout w e user t1 t2 t3 :
  (expired_log (exec e w) = expired_log w
   ∨ ∃ h due callback j deadline,
       e = TimerFires h
       ∧ timeouts w !! h = Some due ∧ due ≤ clock w
       ∧ onSessionExpired w = Some callback
       ∧ localStorage w !! SESSION_KEY = Some (Decoded j)
       ∧ (∀ w0, read_number j "expiresAt" w0 = (Ok (Num deadline), w0))
       ∧ clock w ≤ deadline < clock w + hd 0 (drift w)
       ∧ expired_log (exec e w) = callback :: expired_log w
       ∧ localStorage (exec e w) !! SESSION_KEY = None
       ∧ activityTimer (exec e w) = None)
  ∧ (is_timer e = false → expired_log (exec e w) = expired_log w)
  ∧ expired_log (exec ClearSession w) = expired_log w
  ∧ (let w' := play [(t1, SaveSession user); (t2, ClearSession)] w in
     isLoggedIn (at_instant t3 w') = (Ok false, at_instant t3 w')
     ∧ expired_log w' = expired_log w
     ∧ localStorage w' !! SESSION_KEY = None
     ∧ activityTimer w' = None).
Proof.
  split; [apply exec_log_cases|]. split; [|split].
  - intros Hquiet. apply (preserves_exec (log_is (expired_log w)));
      [by apply quiet_run_keeps_log|done].
  - apply (preserves_exec (log_is (expired_log w)));
      [by apply quiet_run_keeps_log|done].
  - simpl.
    assert (Hstore : localStorage
              (exec_at t2 ClearSession (exec_at t1 (SaveSession user) w))
              !! SESSION_KEY = None).
    { unfold exec_at at 1. unfold exec, run. rewrite clearSession_eq.
      world_simpl. apply lookup_delete_eq. }
    split; [|split; [|split]].
    + unfold isLoggedIn. monad_unfold. by rewrite getSession_absent.
    + apply (play_never_notifies
               [(t1, SaveSession user); (t2, ClearSession)] w).
    + done.
    + unfold exec_at at 1. unfold exec, run. rewrite clearSession_eq.
      by world_simpl.
Qed.

End Expiry.

(** ** The activity tracker *)

Section Tracker.
Context `{rt : Runtime}.

Lemma assignable_removed w w' :
  localStorage w' = delete SESSION_KEY (localStorage w) → assignable w'.
Proof. intros E j. by rewrite E, lookup_delete_eq. Qed.

Lemma assignable_getSession w j w1 :
  assignable w → getSession w = (Ok j, w1) → assignable w1.
Proof.
  intros Ha E. destruct (getSession_shape w) as (j' & w' & E' & Hw & _).
  rewrite E in E'. injection E' as <- <-.
  destruct Hw as [-> | [-> | [-> | ->]]]; try done.
  - apply (assignable_removed w). by world_simpl.
  - apply (assignable_removed w). by world_simpl.
Qed.

(** On an assignable payload updateActivity() returns normally. *)
Lemma updateActivity_returns w :
  assignable w → ∃ w', updateActivity w = (Ok tt, w') ∧ assignable w'.
Proof.
  intros Ha. rewrite updateActivity_eq.
  destruct (getSession_shape (counted w)) as (j & w1 & E & _ & Hj).
  rewrite E. destruct (truthy j) eqn:T.
  - destruct Hj as [-> | [Hstore ->]]; [done|].
    destruct (Ha j Hstore T) as [[fields ->]|[elems ->]];
      eexists; (split; [done|]); intros j';
      world_simpl; rewrite lookup_insert_eq; intros [= <-]; eauto.
  - eexists. split; [done|]. by eapply (assignable_getSession (counted w)).
Qed.

Lemma handleActivity_dropped w :
  drift w = [] →
  clock w - lastActivityTime w ≤ throttleDelay →
  handleActivity w = (Ok tt, w).
Proof.
  intros Hsteady Hle. unfold handleActivity, Date_now. monad_unfold.
  cbv beta iota. change (set_clock _ _ w) with (ticked w).
  rewrite ticked_steady by done.
  by destruct (Z.ltb_spec throttleDelay (clock w - lastActivityTime w));
    [lia|].
Qed.

Lemma handleActivity_forwarded w :
  drift w = [] →
  throttleDelay < clock w - lastActivityTime w →
  handleActivity w =
  match updateActivity w with
  | (Ok _, w') => (Ok tt, set_lastActivityTime (clock w) w')
  | (Throw e, w') => (Throw e, w')
  end.
Proof.
  intros Hsteady Hlt. unfold handleActivity, Date_now, trackActivity.
  monad_unfold. cbv beta iota. change (set_clock _ _ w) with (ticked w).
  rewrite ticked_steady by done.
  by destruct (Z.ltb_spec throttleDelay (clock w - lastActivityTime w));
    [|lia].
Qed.

Lemma interaction_dropped t w :
  t - lastActivityTime w ≤ throttleDelay →
  exec_at t Interaction w = at_instant t w.
Proof.
  intros Hle. unfold exec_at, exec, run.
  by rewrite handleActivity_dropped.
Qed.

Lemma interaction_forwarded t w :
  assignable w →
  throttleDelay < t - lastActivityTime w →
  updateActivity_calls (exec_at t Interaction w) = S (updateActivity_calls w)
  ∧ lastActivityTime (exec_at t Interaction w) = t
  ∧ assignable (exec_at t Interaction w).
Proof.
  intros Ha Hlt. unfold exec_at, exec, run.
  rewrite handleActivity_forwarded by done.
  destruct (updateActivity_returns (at_instant t w)) as (w' & E & Ha');
    [done|].
  pose proof (updateActivity_counts (at_instant t w)) as Hcount.
  rewrite E in *. simpl in *. done.
Qed.

(** Signals that all come too soon after the stamp are all dropped. *)
Lemma burst_dropped ts w :
  (∀ t, t ∈ ts → t - lastActivityTime w ≤ throttleDelay) →
  updateActivity_calls (play (interactions ts) w) = updateActivity_calls w.
Proof.
  revert w. induction ts as [|t ts IH]; intros w Hall; [done|].
  simpl. rewrite interaction_dropped by (apply Hall; left).
  rewrite IH; [done|]. intros t' Ht'. simpl. apply Hall. by right.
Qed.

(** C5 (amended). For every burst of interaction events within a window
    smaller than 30 seconds, on a store updateActivity() can write to, at
    most one updateActivity() call reaches the SessionManager; an
    interaction event is forwarded exactly when now - lastActivityTime
    exceeds 30 seconds and is dropped otherwise.  API request and response
    signals are not throttled: each of them calls updateActivity(). *)
Theorem interaction_throttle w ts :
  assignable w →
  (∀ a b, a ∈ ts → b ∈ ts → a - b < throttleDelay) →
  (updateActivity_calls (play (interactions ts) w)
   ≤ S (updateActivity_calls w))%nat
  ∧ (∀ t, t - lastActivityTime w ≤ throttleDelay →
       exec_at t Interaction w = at_instant t w)
  ∧ (∀ t, throttleDelay < t - lastActivityTime w →
       updateActivity_calls (exec_at t Interaction w)
       = S (updateActivity_calls w)
       ∧ lastActivityTime (exec_at t Interaction w) = t)
  ∧ (updateActivity_calls (exec ApiRequest w) = S (updateActivity_calls w)
     ∧ lastActivityTime (exec ApiRequest w) = lastActivityTime w)
  ∧ (updateActivity_calls (exec ApiResponse w) = S (updateActivity_calls w)
     ∧ lastActivityTime (exec ApiResponse w) = lastActivityTime w).
Proof.
  intros Ha Hwindow. split; [|split; [|split; [|split]]].
  - revert w Ha. induction ts as [|t ts IH]; intros w Ha; [simpl; lia|].
    simpl.
    destruct (Z.le_gt_cases (t - lastActivityTime w) throttleDelay)
      as [Hle|Hgt].
    + rewrite interaction_dropped by done.
      exact (IH (λ a b Ha' Hb', Hwindow a b (list_elem_of_further _ _ _ Ha')
                                  (list_elem_of_further _ _ _ Hb'))
               (at_instant t w) Ha).
    + destruct (interaction_forwarded t w Ha) as (Hcount & Hstamp & _);
        [lia|].
      rewrite burst_dropped; [lia|].
      intros t' Ht'. rewrite Hstamp.
      pose proof (Hwindow t' t (list_elem_of_further _ _ _ Ht')
                    (list_elem_of_here _ _)). lia.
  - intros t Hle. by apply interaction_dropped.
  - intros t Hlt.
    destruct (interaction_forwarded t w Ha) as (? & ? & _); [lia|done].
  - split; [apply updateActivity_counts|].
    by apply (preserves_exec (stamp_is (lastActivityTime w)) ApiRequest);
      [apply updateActivity_keeps_stamp|].
  - split; [apply updateActivity_counts|].
    by apply (preserves_exec (stamp_is (lastActivityTime w)) ApiResponse);
      [apply updateActivity_keeps_stamp|].
Qed.

End Tracker.

(** ** The record invariant under a clock that never goes back *)

Section RecordInvariant.
Context `{rt : Runtime}.

Lemma record_ok_at_slot t t' w w' :
  t ≤ t' →
  slot_kept_or_emptied (localStorage w !! SESSION_KEY) w' →
  record_ok_at t w → record_ok_at t' w'.
Proof.
  unfold record_ok_at, slot_kept_or_emptied. intros Hle [->| ->]; [done|].
  destruct (localStorage w !! SESSION_KEY) as [[| |[]]|]; try done.
  intros (Hinv & a & Ha & Hat). split; [done|]. exists a. split; [done|lia].
Qed.

Lemma readers_keep_slot s e :
  is_write e = false → preserves (slot_kept_or_emptied s) (run e).
Proof.
  intros Hr. destruct e; try discriminate Hr; unfold_manager;
    frame ltac:(let w := fresh "w" in
                let HP := fresh "HP" in
                intros w HP; unfold slot_kept_or_emptied in *; world_simpl;
                first [ done | left; apply lookup_delete_eq ]).
Qed.

Lemma getSession_keeps_slot s : preserves (slot_kept_or_emptied s) getSession.
Proof.
  unfold_manager.
  frame ltac:(let w := fresh "w" in
              let HP := fresh "HP" in
              intros w HP; unfold slot_kept_or_emptied in *; world_simpl;
              first [ done | left; apply lookup_delete_eq ]).
Qed.

Lemma record_invariant_login fields :
  record_invariant fields = true →
  ∃ l a, instant_of "loginTime" fields = Some l
         ∧ instant_of "lastActivity" fields = Some a ∧ l ≤ a.
Proof.
  unfold record_invariant, login_invariant.
  intros [_ Hlogin]%andb_prop.
  destruct (instant_of "loginTime" fields) as [l|]; [|done].
  destruct (instant_of "lastActivity" fields) as [a|]; [|done].
  exists l, a. split; [done|]. split; [done|lia].
Qed.

Lemma renewed_record_invariant now fields :
  record_invariant fields = true →
  (∃ a, instant_of "lastActivity" fields = Some a ∧ a ≤ now) →
  record_invariant (renewed now fields) = true.
Proof.
  intros Hinv (a & Ha & Hle). unfold record_invariant.
  rewrite renewed_deadline_invariant. simpl.
  apply renewed_login_invariant.
  destruct (record_invariant_login fields Hinv) as (l & a' & Hl & Ha' & Hla).
  exists l. split; [done|]. rewrite Ha in Ha'. injection Ha' as <-. lia.
Qed.

Lemma updateActivity_keeps_record_ok t t' w :
  t ≤ t' → record_ok_at t w →
  record_ok_at t' (updateActivity (at_instant t' w)).2.
Proof.
  intros Hle Hok. rewrite updateActivity_eq.
  set (w0 := counted (at_instant t' w)).
  destruct (getSession w0) as [r w1] eqn:E.
  assert (Hslot : slot_kept_or_emptied (localStorage w !! SESSION_KEY) w1).
  { apply (getSession_keeps_slot _ w0 r w1); [by right|done]. }
  destruct (getSession_shape w0) as (j & w1' & E' & _ & Hj).
  rewrite E in E'. injection E' as -> <-.
  destruct (truthy j) eqn:T;
    [|by apply (record_ok_at_slot t t' w)].
  destruct Hj as [-> | [Hstore ->]]; [done|].
  change (localStorage w0) with (localStorage w) in Hstore.
  unfold record_ok_at in Hok. rewrite Hstore in Hok.
  destruct j as [| | | | |fields]; try done.
  destruct Hok as (Hinv & a & Ha & Hat).
  assert (Hnow : clock (ticked w0) = t').
  { subst w0. unfold ticked, counted, at_instant. simpl. lia. }
  rewrite Hnow. cbn [snd]. unfold record_ok_at.
  destruct (holds_record_renewed t' fields (ticked (ticked w0))) as [-> _].
  split.
  - apply renewed_record_invariant; [done|]. exists a. split; [done|lia].
  - exists t'. unfold instant_of. by rewrite renewed_lastActivity.
Qed.

Lemma record_ok_at_fresh : record_ok_at 0 fresh_world.
Proof. by vm_compute. Qed.

Lemma exec_at_keeps_record_ok t t' e w :
  t ≤ t' → record_ok_at t w → record_ok_at t' (exec_at t' e w).
Proof.
  intros Hle Hok. destruct (is_write e) eqn:W.
  - destruct e; try discriminate W.
    + unfold exec_at, record_ok_at. rewrite saveSession_store.
      simpl. rewrite lookup_insert_eq. split; [apply new_record_invariant|].
      exists t'. split; [|lia]. by destruct user.
    + by apply (updateActivity_keeps_record_ok t).
    + by apply (updateActivity_keeps_record_ok t).
    + unfold exec_at, exec, run.
      destruct (Z.le_gt_cases (t' - lastActivityTime w) throttleDelay).
      * rewrite handleActivity_dropped by done.
        by apply (record_ok_at_slot t t' w); [|right|].
      * rewrite handleActivity_forwarded by (simpl; done || lia).
        pose proof (updateActivity_keeps_record_ok t t' w Hle Hok) as Hup.
        by destruct (updateActivity (at_instant t' w)) as [[[]|?] w'].
    + by apply (updateActivity_keeps_record_ok t).
    + by apply (updateActivity_keeps_record_ok t).
  - apply (record_ok_at_slot t t' w); [done| |done].
    unfold exec_at.
    apply (preserves_exec (slot_kept_or_emptied (localStorage w !! SESSION_KEY)));
      [by apply readers_keep_slot|by right].
Qed.

(** Along every trace from a freshly loaded page on which the clock never
    goes back, the session slot is empty or holds a record that satisfies
    the record invariant of the data model. *)
Lemma record_invariant_along_monotone_trace trace t w :
  record_ok_at t w → monotone t trace →
  ∃ t', record_ok_at t' (play trace w).
Proof.
  revert t w. induction trace as [|[t' e] trace IH]; intros t w Hok Hmono.
  - by exists t.
  - destruct Hmono as [Hle Hmono]. simpl.
    apply (IH t'); [|done]. by apply (exec_at_keeps_record_ok t).
Qed.

End RecordInvariant.

(** * Further properties of the session manager and of its callers *)

Section Lifecycle.
Context `{rt : Runtime}.

Lemma saveSession_eq user w :
  saveSession user w =
  (match user with
   | Undefined | J JNull => Throw TypeError
   | _ => Ok tt
   end,
   started (stored (Decoded (JObj (new_record user (clock w)))) (ticked w))).
Proof.
  unfold saveSession, Date_now, localStorage_setItem, get_prop_value,
    get_prop, JSON_stringify_literal, new_record.
  monad_unfold. rewrite startActivityTimer_eq.
  by destruct user as [|[]].
Qed.

Lemma new_record_deadline user now :
  obj_get "expiresAt" (new_record user now)
  = Some (JNum (now + TIMEOUT_DURATION)).
Proof. by destruct user. Qed.

Lemma holds_record_saved user t w :
  holds_record (exec_at t (SaveSession user) w) (new_record user t)
    (t + TIMEOUT_DURATION).
Proof.
  split; [|apply new_record_deadline].
  unfold exec_at. rewrite saveSession_store. apply lookup_insert_eq.
Qed.

Lemma steady_saved user t w : drift (exec_at t (SaveSession user) w) = [].
Proof.
  unfold exec_at, exec, run. rewrite saveSession_eq. by world_simpl.
Qed.

Lemma getSession_valid_steady w fields e :
  drift w = [] → holds_record w fields e → clock w ≤ e →
  getSession w = (Ok (JObj fields), w).
Proof.
  intros Hs [Hitem Hdeadline] Hvalid.
  rewrite (getSession_valid w fields e) by done. by rewrite ticked_steady.
Qed.

(** X1. Round trip through the store: whatever the page held before,
    after saveSession(user) at [t] every getSession() up to the instant
    [t + TIMEOUT_DURATION] returns the record written at [t], unchanged
    and without touching the world; getCurrentUser() then returns a truthy
    user as it was given; any later getSession() returns absent. *)
Theorem saveSession_getSession_round_trip w user t t' :
  let w1 := exec_at t (SaveSession user) w in
  (t' ≤ t + TIMEOUT_DURATION →
     getSession (at_instant t' w1)
     = (Ok (JObj (new_record user t)), at_instant t' w1)
     ∧ ∀ j, user = J j → truthy j = true →
         getCurrentUser (at_instant t' w1) = (Ok j, at_instant t' w1))
  ∧ (t + TIMEOUT_DURATION < t' →
     (getSession (at_instant t' w1)).1 = Ok JNull).
Proof.
  intros w1.
  pose proof (holds_record_saved user t w) as Hrec. fold w1 in Hrec.
  split.
  - intros Hle.
    assert (Hget : getSession (at_instant t' w1)
                   = (Ok (JObj (new_record user t)), at_instant t' w1)).
    { by apply (getSession_valid_steady _ _ (t + TIMEOUT_DURATION)). }
    split; [done|]. intros j -> Hj.
    unfold getCurrentUser. monad_unfold. rewrite Hget.
    unfold get_prop, new_record. simpl. by rewrite Hj.
  - intros Hlt. destruct Hrec as [Hitem Hdeadline].
    by rewrite (getSession_expired (at_instant t' w1) (new_record user t)
                  (t + TIMEOUT_DURATION)).
Qed.

(** X2. saveSession(user) throws a TypeError exactly when the user is
    null or undefined, and only after its work is done: in every case the
    record is in the store, the manager holds the handle of a timeout due
    one check interval later, and no stale timeout it held before is
    pending. *)
Theorem saveSession_writes_then_may_throw w user :
  ∃ r w', saveSession user w = (r, w')
    ∧ (r = Throw TypeError ↔ user = Undefined ∨ user = J JNull)
    ∧ (r = Ok tt ↔ user ≠ Undefined ∧ user ≠ J JNull)
    ∧ localStorage w' !! SESSION_KEY
      = Some (Decoded (JObj (new_record user (clock w))))
    ∧ ∃ h, activityTimer w' = Some h
           ∧ timeouts w' !! h = Some (clock w' + CHECK_INTERVAL)
           ∧ ∀ h0, activityTimer w = Some h0 → h0 ≠ h →
               timeouts w' !! h0 = None.
Proof.
  eexists _, _. split; [apply saveSession_eq|].
  split; [|split; [|split]].
  - destruct user as [|[]]; split; try done; try (by intros [|]); eauto.
  - destruct user as [|[]]; split; try done; by intros [].
  - world_simpl. apply lookup_insert_eq.
  - unfold started, stored, ticked. world_fields.
    eexists. split; [done|]. split.
    + autorewrite with world. world_fields. apply lookup_insert_eq.
    + intros h0 Hh0 Hne. rewrite lookup_insert_ne by done.
      unfold stopped. world_fields. rewrite Hh0. world_fields.
      apply lookup_delete_eq.
Qed.

Lemma cleared_idempotent w : cleared (cleared w) = cleared w.
Proof.
  destruct w as [c d s q n [h|] cb l log calls];
    unfold cleared, stopped; simpl; by rewrite delete_delete_eq.
Qed.

(** X3. clearSession() never throws and is idempotent: a second call
    leaves the world exactly as the first one left it.  After it nothing
    is stored under the session key, the other keys are untouched, the
    manager holds no timer handle and isLoggedIn() is false. *)
Theorem clearSession_idempotent w :
  run ClearSession w = (Ok tt, exec ClearSession w)
  ∧ exec ClearSession (exec ClearSession w) = exec ClearSession w
  ∧ localStorage (exec ClearSession w) !! SESSION_KEY = None
  ∧ (∀ k, k ≠ SESSION_KEY →
       localStorage (exec ClearSession w) !! k = localStorage w !! k)
  ∧ activityTimer (exec ClearSession w) = None
  ∧ isLoggedIn (exec ClearSession w) = (Ok false, exec ClearSession w).
Proof.
  unfold exec, run. rewrite !clearSession_eq. cbn [snd].
  assert (Hstore : localStorage (cleared w) !! SESSION_KEY = None).
  { world_simpl. apply lookup_delete_eq. }
  split; [done|]. split; [apply cleared_idempotent|]. split; [done|].
  split; [|split].
  - intros k Hk. world_simpl. by rewrite lookup_delete_ne.
  - by world_simpl.
  - unfold isLoggedIn. monad_unfold. by rewrite getSession_absent.
Qed.

(** X4. Without a stored session updateActivity() is a no-op: it returns
    normally and, but for the count of the call, leaves the world as it
    was: no record is created and no timeout is scheduled.  The same holds
    for extendSession() and for both API interceptors. *)
Theorem updateActivity_without_session w :
  localStorage w !! SESSION_KEY = None →
  updateActivity w = (Ok tt, counted w)
  ∧ extendSession w = (Ok tt, counted w)
  ∧ request_interceptor w = (Ok tt, counted w)
  ∧ response_interceptor w = (Ok tt, counted w).
Proof.
  intros Habsent.
  assert (updateActivity w = (Ok tt, counted w)) as Hup.
  { rewrite updateActivity_eq. by rewrite (getSession_absent (counted w)). }
  done.
Qed.

(** X5. A renewal touches lastActivity and expiresAt only: every other
    property of the stored record, the user and loginTime among them, is
    what it was, so getCurrentUser() answers the same before and after. *)
Theorem updateActivity_keeps_other_fields w fields e :
  drift w = [] →
  holds_record w fields e →
  clock w ≤ e →
  ∃ fields',
    localStorage (exec UpdateActivity w) !! SESSION_KEY
    = Some (Decoded (JObj fields'))
    ∧ (∀ k, k ≠ "lastActivity"%string → k ≠ "expiresAt"%string →
         obj_get k fields' = obj_get k fields)
    ∧ (getCurrentUser (exec UpdateActivity w)).1 = (getCurrentUser w).1.
Proof.
  intros Hsteady Hrec Hvalid. exists (renewed (clock w) fields).
  unfold exec, run.
  rewrite (updateActivity_valid_steady w fields e) by done. cbn [snd].
  pose proof (holds_record_renewed (clock w) fields (counted w)) as Hrec'.
  split; [apply Hrec'|]. split.
  - intros k H1 H2. by apply renewed_other.
  - set (w1 := started _) in *.
    assert (clock w1 ≤ clock w + TIMEOUT_DURATION).
    { subst w1. world_simpl. unfold TIMEOUT_DURATION. lia. }
    unfold getCurrentUser. monad_unfold.
    destruct Hrec as [Hitem Hdeadline], Hrec' as [Hitem' Hdeadline'].
    rewrite (getSession_valid w fields e),
      (getSession_valid w1 (renewed (clock w) fields)
         (clock w + TIMEOUT_DURATION)) by done.
    unfold get_prop. simpl. by rewrite renewed_other.
Qed.

(** X6. The timeout is a sliding window: after a renewal at [t] the
    session is valid up to the instant [t + TIMEOUT_DURATION], whatever its
    deadline was before, and absent afterwards. *)
Theorem renewal_slides_deadline w fields e t t' :
  holds_record w fields e →
  t ≤ e →
  let w1 := exec_at t UpdateActivity w in
  (t' ≤ t + TIMEOUT_DURATION →
     getSession (at_instant t' w1)
     = (Ok (JObj (renewed t fields)), at_instant t' w1))
  ∧ (t + TIMEOUT_DURATION < t' →
     (getSession (at_instant t' w1)).1 = Ok JNull).
Proof.
  intros Hrec Hvalid w1.
  assert (Hrec1 : holds_record w1 (renewed t fields) (t + TIMEOUT_DURATION)).
  { subst w1. unfold exec_at, exec, run.
    rewrite (updateActivity_valid_steady (at_instant t w) fields e) by done.
    apply holds_record_renewed. }
  split.
  - intros Hle. by apply (getSession_valid_steady _ _ (t + TIMEOUT_DURATION)).
  - intros Hlt. destruct Hrec1 as [Hitem Hdeadline].
    by rewrite (getSession_expired (at_instant t' w1) (renewed t fields)
                  (t + TIMEOUT_DURATION)).
Qed.

(** X7. getSession() never throws and never writes: it leaves the store
    as it was or removes the session key, in which case it returns absent
    and the manager holds no timer handle; it schedules no timeout, invokes
    no callback and registers none. *)
Theorem getSession_reads_or_purges w :
  ∃ j w', getSession w = (Ok j, w')
    ∧ (localStorage w' = localStorage w
       ∨ (localStorage w' = delete SESSION_KEY (localStorage w)
          ∧ j = JNull ∧ activityTimer w' = None))
    ∧ (∀ h due, timeouts w' !! h = Some due → timeouts w !! h = Some due)
    ∧ expired_log w' = expired_log w
    ∧ onSessionExpired w' = onSessionExpired w.
Proof.
  destruct (getSession_shape w) as (j & w' & E & Hw & Hj).
  exists j, w'. split; [done|].
  assert (Hsub : ∀ w0 h due,
            timeouts (cleared w0) !! h = Some due →
            timeouts w0 !! h = Some due).
  { intros w0 h due. unfold cleared, stopped. world_fields.
    destruct (activityTimer w0); world_fields; [|done].
    rewrite lookup_delete_Some. by intros [_ ?]. }
  destruct Hw as [-> | [-> | [-> | ->]]].
  - by repeat split; [left|..].
  - destruct Hj as [-> | [_ Hw]].
    + repeat split; try (by world_simpl); [|apply Hsub].
      right. by world_simpl.
    + rewrite Hw. by repeat split; [left|..].
  - by repeat split; [left|..].
  - destruct Hj as [-> | [_ Hw]].
    + repeat split; try (by world_simpl); [|apply (Hsub (ticked w))].
      right. by world_simpl.
    + rewrite Hw. by repeat split; [left|..].
Qed.

End Lifecycle.

(** ** What the user is shown *)

Section Display.
Context `{rt : Runtime}.

Lemma getTimeRemaining_valid_steady w fields e :
  drift w = [] → holds_record w fields e → clock w ≤ e →
  getTimeRemaining w = (Ok (Num ((e - clock w) / 60000)), w).
Proof.
  intros Hs Hrec Hvalid.
  rewrite (getTimeRemaining_valid w fields e) by done.
  rewrite !ticked_steady by done.
  rewrite Z.max_r; [done|]. apply Z.div_pos; lia.
Qed.

Lemma getTimeRemaining_no_deadline w fields :
  drift w = [] →
  localStorage w !! SESSION_KEY = Some (Decoded (JObj fields)) →
  obj_get "expiresAt" fields = None →
  getTimeRemaining w = (Ok NaN, w).
Proof.
  intros Hs Hitem Hmissing.
  assert (getTimeRemaining w = (Ok NaN, ticked (ticked w))) as ->.
  { unfold getTimeRemaining. monad_unfold.
    rewrite (getSession_no_deadline w fields) by done.
    simpl. unfold read_number, get_prop. monad_unfold. by rewrite Hmissing. }
  by rewrite !(ticked_steady w) by done.
Qed.

Lemma isLoggedIn_record w fields e :
  drift w = [] → holds_record w fields e → clock w ≤ e →
  isLoggedIn w = (Ok true, w).
Proof.
  intros Hs Hrec Hvalid. unfold isLoggedIn. monad_unfold.
  by rewrite (getSession_valid_steady w fields e).
Qed.

(** X8. While a record stays valid and is not renewed, getTimeRemaining()
    counts down: read at a later instant it never returns more, it is
    never negative, and it is the number of whole minutes left. *)
Theorem getTimeRemaining_counts_down w fields e t1 t2 :
  holds_record w fields e →
  t1 ≤ t2 →
  t2 ≤ e →
  ∃ m1 m2,
    (getTimeRemaining (at_instant t1 w)).1 = Ok (Num m1)
    ∧ (getTimeRemaining (at_instant t2 w)).1 = Ok (Num m2)
    ∧ 0 ≤ m2 ≤ m1
    ∧ 60000 * m1 ≤ e - t1 < 60000 * (m1 + 1).
Proof.
  intros Hrec H12 H2e.
  exists ((e - t1) / 60000), ((e - t2) / 60000).
  rewrite (getTimeRemaining_valid_steady (at_instant t1 w) fields e),
    (getTimeRemaining_valid_steady (at_instant t2 w) fields e)
    by (done || (simpl; lia)).
  simpl. split; [done|]. split; [done|]. split; [|apply minutes_floor].
  split; [apply Z.div_pos; lia|apply Z.div_le_mono; lia].
Qed.

(** X9. Right after login 15 minutes are left, one millisecond later 14:
    between a login at [t] and its deadline getTimeRemaining() lies
    between 0 and 15, and it is 15 at the instant [t] only. *)
Theorem getTimeRemaining_after_login w user t t' :
  t ≤ t' →
  t' ≤ t + TIMEOUT_DURATION →
  ∃ m, (getTimeRemaining (at_instant t' (exec_at t (SaveSession user) w))).1
       = Ok (Num m)
       ∧ 0 ≤ m ≤ 15 ∧ (m = 15 ↔ t' = t).
Proof.
  intros Hle Hin. exists ((t + TIMEOUT_DURATION - t') / 60000).
  rewrite (getTimeRemaining_valid_steady _ (new_record user t)
             (t + TIMEOUT_DURATION));
    [|done|apply holds_record_saved|done].
  simpl. split; [done|].
  pose proof (minutes_floor (t + TIMEOUT_DURATION - t')) as Hfloor.
  unfold TIMEOUT_DURATION in *. lia.
Qed.

(** X10. The App raises its session warning exactly while between one and
    three minutes are left, the first included: with less than a minute
    left getTimeRemaining() is 0 and the warning is withdrawn.  With
    nothing stored it reports 0 and no warning. *)
Theorem session_warning_window w :
  drift w = [] →
  (∀ fields e, holds_record w fields e → clock w ≤ e →
     warningInterval_callback w
     = (Ok (Num ((e - clock w) / 60000),
            (60000 <=? e - clock w) && (e - clock w <? 180000)), w))
  ∧ (localStorage w !! SESSION_KEY = None →
     warningInterval_callback w = (Ok (Num 0, false), w)).
Proof.
  intros Hs. split.
  - intros fields e Hrec Hvalid. unfold warningInterval_callback.
    monad_unfold.
    rewrite (getTimeRemaining_valid_steady w fields e) by done.
    pose proof (minutes_floor (e - clock w)) as Hfloor.
    set (d := e - clock w) in *. set (m := d / 60000) in *.
    unfold js_le, js_gt.
    destruct (Z.leb_spec m 2), (Z.ltb_spec 0 m),
      (Z.leb_spec 60000 d), (Z.ltb_spec d 180000);
      simpl; try lia; try done.
    by rewrite (isLoggedIn_record w fields e).
  - intros Habsent. unfold warningInterval_callback, getTimeRemaining.
    monad_unfold. by rewrite getSession_absent.
Qed.


(** X12. A stored record without expiresAt is shown as a healthy session:
    getTimeRemaining() is NaN, SessionStatus shows a chip of colour success
    whose label is NaN, and the App raises no warning. *)
Theorem record_without_deadline_is_shown_healthy w fields :
  drift w = [] →
  localStorage w !! SESSION_KEY = Some (Decoded (JObj fields)) →
  obj_get "expiresAt" fields = None →
  getTimeRemaining w = (Ok NaN, w)
  ∧ updateStatus w = (Ok (NaN, true), w)
  ∧ SessionStatus_chip NaN true = Some ("success"%string, NaN)
  ∧ warningInterval_callback w = (Ok (NaN, false), w).
Proof.
  intros Hs Hitem Hmissing.
  pose proof (getTimeRemaining_no_deadline w fields Hs Hitem Hmissing) as Hrem.
  assert (Hget : getSession w = (Ok (JObj fields), w)).
  { rewrite (getSession_no_deadline w fields) by done.
    by rewrite ticked_steady by done. }
  split; [done|]. split; [|split; [done|]].
  - unfold updateStatus, isLoggedIn. monad_unfold. by rewrite Hrem, Hget.
  - unfold warningInterval_callback. monad_unfold. by rewrite Hrem.
Qed.

(** X13. A session survives a page reload: after saveSession(user) at [t]
    with a user that is neither null nor undefined, the App's start-up on
    a reloaded page restores that user up to the instant
    [t + TIMEOUT_DURATION] and registers the expiry callback; the restored
    session is not polled, for no timeout is scheduled.  Later than that
    it restores nothing and the record is purged. *)
Theorem session_survives_reload w j t t' callback :
  j ≠ JNull →
  let w1 := at_instant t' (reload (exec_at t (SaveSession (J j)) w)) in
  (t' ≤ t + TIMEOUT_DURATION →
     App_restore callback w1
     = (Ok (Some (J j)), set_onSessionExpired (Some callback) w1)
     ∧ timeouts (set_onSessionExpired (Some callback) w1) = ∅)
  ∧ (t + TIMEOUT_DURATION < t' →
     ∃ w', App_restore callback w1 = (Ok None, w')
           ∧ localStorage w' !! SESSION_KEY = None
           ∧ onSessionExpired w' = Some callback).
Proof.
  intros Hj w1.
  assert (Hrec : holds_record w1 (new_record (J j) t) (t + TIMEOUT_DURATION))
    by apply (holds_record_saved (J j) t w).
  split.
  - intros Hle. split; [|done].
    unfold App_restore, setOnSessionExpired. monad_unfold.
    rewrite (getSession_valid_steady w1 _ (t + TIMEOUT_DURATION)) by done.
    simpl. by destruct j.
  - intros Hlt. destruct Hrec as [Hitem Hdeadline].
    unfold App_restore, setOnSessionExpired. monad_unfold.
    rewrite (getSession_expired w1 _ (t + TIMEOUT_DURATION)) by done.
    simpl. eexists. split; [done|]. split; [|done].
    world_simpl. apply lookup_delete_eq.
Qed.

(** X14. A stored session whose user is null or missing breaks the App's
    start-up: the effect throws a TypeError while logging the user name,
    before the expiry callback is registered. *)
Theorem App_restore_throws_without_user w fields e callback :
  holds_record w fields e →
  clock w ≤ e →
  obj_get "user" fields = None ∨ obj_get "user" fields = Some JNull →
  ∃ w', App_restore callback w = (Throw TypeError, w')
        ∧ onSessionExpired w' = onSessionExpired w.
Proof.
  intros [Hitem Hdeadline] Hvalid Huser.
  unfold App_restore. monad_unfold.
  rewrite (getSession_valid w fields e) by done. simpl.
  unfold get_prop, get_prop_value. monad_unfold.
  destruct Huser as [-> | ->]; simpl; eexists; by split.
Qed.

End Display.

(** ** The expiration poll *)

Section Poll.
Context `{rt : Runtime}.

Lemma timers_wf_cases w :
  timers_wf w →
  timeouts w = ∅
  ∨ ∃ h due, activityTimer w = Some h ∧ timeouts w = {[h := due]}.
Proof.
  intros Hwf. destruct (activityTimer w) as [h|] eqn:Hh.
  - destruct (timeouts w !! h) as [due|] eqn:L.
    + right. exists h, due. split; [done|]. apply map_eq. intros k.
      destruct (decide (k = h)) as [->|Hne].
      * by rewrite lookup_singleton_eq.
      * rewrite lookup_singleton_ne by done.
        destruct (timeouts w !! k) as [d|] eqn:Lk; [|done].
        destruct (Hwf k d Lk) as [? _]. congruence.
    + left. apply map_empty. intros k.
      destruct (timeouts w !! k) as [d|] eqn:Lk; [|done].
      destruct (Hwf k d Lk) as [? _]. congruence.
  - left. apply map_empty. intros k.
    destruct (timeouts w !! k) as [d|] eqn:Lk; [|done].
    destruct (Hwf k d Lk) as [? _]. congruence.
Qed.

Lemma started_armed w :
  timers_wf w → armed_at (clock w + CHECK_INTERVAL) (started w).
Proof.
  intros Hwf. exists (nextHandle (stopped w)). unfold started. world_fields.
  split; [done|].
  rewrite timers_wf_stopped_empty, clock_stopped by done.
  apply insert_empty.
Qed.

(** X15. At most one expiration check is ever pending: along every trace
    from a page where this holds, a freshly loaded one for instance, the
    timeout queue holds at most one entry, and the manager holds the
    handle of every pending timeout. *)
Theorem at_most_one_timeout_pending trace w :
  timers_wf w →
  (size (timeouts (play trace w)) ≤ 1)%nat
  ∧ ∀ h due, timeouts (play trace w) !! h = Some due →
      activityTimer (play trace w) = Some h.
Proof.
  intros Hwf. pose proof (timers_wf_play trace w Hwf) as Hwf'. split.
  - destruct (timers_wf_cases _ Hwf') as [-> | (h & due & _ & ->)].
    + rewrite map_size_empty. lia.
    + by rewrite map_size_singleton.
  - intros h due L. by destruct (Hwf' h due L).
Qed.

(** X16. Every write restarts the poll: after saveSession(user), and
    after updateActivity() on a valid record, exactly one timeout is
    pending, due one check interval after the write; whatever was pending
    before is cancelled. *)
Theorem writes_restart_the_poll w t user :
  timers_wf w →
  armed_at (t + CHECK_INTERVAL) (exec_at t (SaveSession user) w)
  ∧ ∀ fields e, holds_record w fields e → t ≤ e →
      armed_at (t + CHECK_INTERVAL) (exec_at t UpdateActivity w).
Proof.
  intros Hwf. split.
  - unfold exec_at, exec, run. rewrite saveSession_eq. cbn [snd].
    rewrite (ticked_steady (at_instant t w)) by done.
    exact (started_armed (stored _ (at_instant t w)) Hwf).
  - intros fields e Hrec Hvalid. unfold exec_at, exec, run.
    rewrite (updateActivity_valid_steady (at_instant t w) fields e) by done.
    exact (started_armed (stored _ (counted (at_instant t w))) Hwf).
Qed.

Lemma activityTimer_callback_valid w fields e :
  drift w = [] → holds_record w fields e → clock w ≤ e →
  activityTimer_callback w = (Ok tt, started w).
Proof.
  intros Hs Hrec Hvalid. unfold activityTimer_callback. monad_unfold.
  rewrite (getSession_valid_steady w fields e) by done.
  destruct Hrec as [Hitem Hdeadline].
  simpl. unfold Date_now, read_number, get_prop. monad_unfold.
  rewrite Hdeadline. simpl. change (set_clock _ _ w) with (ticked w).
  rewrite ticked_steady by done.
  destruct (Z.ltb_spec e (clock w)); [lia|]. apply startActivityTimer_eq.
Qed.

Lemma activityTimer_callback_expired w fields e :
  holds_record w fields e → e < clock w →
  activityTimer_callback w = (Ok tt, cleared (ticked w)).
Proof.
  intros [Hitem Hdeadline] Hpast. unfold activityTimer_callback.
  monad_unfold. by rewrite (getSession_expired w fields e).
Qed.

Lemma activityTimer_callback_absent w :
  localStorage w !! SESSION_KEY = None →
  activityTimer_callback w = (Ok tt, w).
Proof.
  intros Habsent. unfold activityTimer_callback. monad_unfold.
  by rewrite getSession_absent.
Qed.

Lemma fire_due w h due :
  timeouts w !! h = Some due → due ≤ clock w →
  run (TimerFires h) w
  = activityTimer_callback
      (set_timeouts (delete h (timeouts w)) (nextHandle w) w).
Proof.
  intros L Hdue. unfold run, fire, clearTimeout. monad_unfold.
  rewrite L. by destruct (Z.leb_spec due (clock w)); [|lia].
Qed.

(** X17. The poll perpetuates itself while the session is valid and stops
    when it is not: a due tick on a valid record leaves the store alone
    and schedules the next check one interval later; on an expired record
    it purges the record and schedules nothing, without invoking the
    expiry callback; with nothing stored it schedules nothing. *)
Theorem timer_tick_polls w h due :
  drift w = [] →
  timers_wf w →
  timeouts w !! h = Some due →
  due ≤ clock w →
  let w' := exec (TimerFires h) w in
  (∀ fields e, holds_record w fields e → clock w ≤ e →
     localStorage w' = localStorage w
     ∧ armed_at (clock w + CHECK_INTERVAL) w')
  ∧ (∀ fields e, holds_record w fields e → e < clock w →
     localStorage w' !! SESSION_KEY = None
     ∧ timeouts w' = ∅
     ∧ expired_log w' = expired_log w)
  ∧ (localStorage w !! SESSION_KEY = None →
     localStorage w' = localStorage w ∧ timeouts w' = ∅).
Proof.
  intros Hs Hwf L Hdue w'. subst w'. unfold exec.
  rewrite (fire_due w h due) by done.
  set (wq := set_timeouts _ _ w).
  assert (Hwfq : timers_wf wq) by by apply timers_wf_dequeue.
  assert (Hq : timeouts wq = ∅).
  { destruct (timers_wf_cases w Hwf) as [E | (h0 & d0 & _ & E)];
      subst wq; simpl; rewrite E; [apply delete_empty|].
    rewrite E in L. apply lookup_singleton_Some in L as [-> _].
    apply delete_singleton_eq. }
  split; [|split].
  - intros fields e Hrec Hvalid.
    rewrite (activityTimer_callback_valid wq fields e) by done.
    cbn [snd]. split; [by world_simpl|]. by apply (started_armed wq).
  - intros fields e Hrec Hpast.
    rewrite (activityTimer_callback_expired wq fields e) by done.
    cbn [snd]. split; [world_simpl; apply lookup_delete_eq|].
    split; [|by world_simpl].
    apply timers_wf_cleared_empty. exact Hwfq.
  - intros Habsent.
    by rewrite (activityTimer_callback_absent wq).
Qed.

(** X18. The expiry callback is invoked by a timer tick exactly when the
    clock passes the deadline between the two clock readings of that tick:
    a record found expired at the first reading is purged silently, a
    record still valid at the second reading is kept and the check
    rescheduled, and only a record valid at the first reading and expired
    at the second is cleared with the callback invoked. *)
Theorem expiry_callback_needs_clock_to_cross_deadline w fields e callback :
  holds_record w fields e →
  onSessionExpired w = Some callback →
  let w' := (activityTimer_callback w).2 in
  let now1 := clock w in
  let now2 := clock w + hd 0 (drift w) in
  (e < now1 →
     expired_log w' = expired_log w
     ∧ localStorage w' !! SESSION_KEY = None)
  ∧ (now1 ≤ e → now2 ≤ e →
     expired_log w' = expired_log w
     ∧ localStorage w' !! SESSION_KEY = Some (Decoded (JObj fields)))
  ∧ (now1 ≤ e → e < now2 →
     expired_log w' = callback :: expired_log w
     ∧ localStorage w' !! SESSION_KEY = None).
Proof.
  intros Hrec Hcb w' now1 now2. subst w' now1 now2. split; [|split].
  - intros Hpast.
    rewrite (activityTimer_callback_expired w fields e) by done.
    cbn [snd]. split; [by world_simpl|world_simpl; apply lookup_delete_eq].
  - intros Hvalid Hstill. destruct Hrec as [Hitem Hdeadline].
    unfold activityTimer_callback. monad_unfold.
    rewrite (getSession_valid w fields e) by done.
    simpl. unfold Date_now, read_number, get_prop. monad_unfold.
    rewrite Hdeadline. simpl.
    destruct (Z.ltb_spec e (clock w + hd 0 (drift w))); [lia|].
    rewrite startActivityTimer_eq. cbn [snd]. by world_simpl.
  - intros Hvalid Hcross. destruct Hrec as [Hitem Hdeadline].
    unfold activityTimer_callback. monad_unfold.
    rewrite (getSession_valid w fields e) by done.
    simpl. unfold Date_now, read_number, get_prop, invoke. monad_unfold.
    rewrite Hdeadline. simpl.
    destruct (Z.ltb_spec e (clock w + hd 0 (drift w))); [|lia].
    rewrite clearSession_eq. cbn [snd].
    replace (onSessionExpired (cleared _)) with (Some callback)
      by (by world_simpl).
    cbn [snd]. split; [by world_simpl|world_simpl; apply lookup_delete_eq].
Qed.

End Poll.

(** ** Interaction keeps the session alive *)

Section KeepAlive.
Context `{rt : Runtime}.

Lemma interaction_renews t w fields e :
  holds_record w fields e →
  t ≤ e →
  throttleDelay < t - lastActivityTime w →
  exec_at t Interaction w
  = set_lastActivityTime t
      (started (stored (Decoded (JObj (renewed t fields)))
                  (counted (at_instant t w)))).
Proof.
  intros Hrec Hvalid Hopen. unfold exec_at, exec, run.
  rewrite handleActivity_forwarded by done.
  by rewrite (updateActivity_valid_steady (at_instant t w) fields e).
Qed.

(** X19. An interaction event that passes the throttle renews the session:
    afterwards the stored record expires one full timeout after the event,
    the throttle stamp is the instant of the event, and the next check is
    due one check interval after it. *)
Theorem forwarded_interaction_renews w fields e t :
  timers_wf w →
  holds_record w fields e →
  t ≤ e →
  throttleDelay < t - lastActivityTime w →
  let w' := exec_at t Interaction w in
  holds_record w' (renewed t fields) (t + TIMEOUT_DURATION)
  ∧ lastActivityTime w' = t
  ∧ armed_at (t + CHECK_INTERVAL) w'.
Proof.
  intros Hwf Hrec Hvalid Hopen w'. subst w'.
  rewrite (interaction_renews t w fields e) by done.
  split; [|split; [done|]].
  - apply (holds_record_renewed t fields (counted (at_instant t w))).
  - exact (started_armed (stored _ (counted (at_instant t w))) Hwf).
Qed.

(** X20. Regular interaction keeps the session alive: when interaction
    events follow one another more than the throttle interval and at most
    the session timeout apart, every one of them reaches updateActivity()
    and renews the session, which is still stored at the end, with the
    user and the loginTime it had, and valid for a full timeout after the
    last event. *)
Theorem paced_interaction_keeps_session_alive ts :
  ∀ w fields e,
    holds_record w fields e →
    lastActivityTime w + TIMEOUT_DURATION ≤ e →
    paced (lastActivityTime w) ts →
    let w' := play (interactions ts) w in
    ∃ fields' e',
      holds_record w' fields' e'
      ∧ lastActivityTime w' + TIMEOUT_DURATION ≤ e'
      ∧ lastActivityTime w' = default (lastActivityTime w) (last ts)
      ∧ updateActivity_calls w' = (updateActivity_calls w + length ts)%nat
      ∧ obj_get "user" fields' = obj_get "user" fields
      ∧ obj_get "loginTime" fields' = obj_get "loginTime" fields.
Proof.
  induction ts as [|t ts IH]; intros w fields e Hrec Hfresh Hpaced.
  - exists fields, e. simpl. by rewrite Nat.add_0_r.
  - destruct Hpaced as (Hopen & Hin & Hpaced). simpl.
    rewrite (interaction_renews t w fields e) by (done || lia).
    set (w1 := set_lastActivityTime t _).
    assert (Hrec1 : holds_record w1 (renewed t fields) (t + TIMEOUT_DURATION))
      by apply (holds_record_renewed t fields (counted (at_instant t w))).
    destruct (IH w1 (renewed t fields) (t + TIMEOUT_DURATION) Hrec1)
      as (fields' & e' & Hrec' & Hfresh' & Hstamp & Hcalls & Huser & Hlogin);
      [done|done|].
    exists fields', e'. split; [done|]. split; [done|]. split; [|split].
    + rewrite Hstamp, last_cons. by destruct (last ts).
    + rewrite Hcalls. subst w1. unfold at_instant. world_simpl. simpl. lia.
    + by rewrite Huser, Hlogin, !renewed_other.
Qed.

End KeepAlive.

(** ** Invariants of the pages the manager alone writes to *)

Section Reachable.
Context `{rt : Runtime}.

(** X21. When nothing but the manager writes to the session key and the
    clock never goes back, the key is empty or holds a well-formed record:
    an object with expiresAt == lastActivity + TIMEOUT_DURATION and
    loginTime <= lastActivity <= expiresAt; never text that does not
    parse, never anything else. *)
Theorem stored_record_is_well_formed trace :
  monotone 0 trace →
  localStorage (play trace fresh_world) !! SESSION_KEY = None
  ∨ ∃ fields,
      localStorage (play trace fresh_world) !! SESSION_KEY
      = Some (Decoded (JObj fields))
      ∧ record_invariant fields = true.
Proof.
  intros Hmono.
  destruct (record_invariant_along_monotone_trace trace 0 fresh_world
              record_ok_at_fresh Hmono) as (t' & Hok).
  unfold record_ok_at in Hok.
  destruct (localStorage (play trace fresh_world) !! SESSION_KEY)
    as [[| |[]]|]; try done; [|by left].
  right. eexists. split; [done|]. by destruct Hok.
Qed.

Lemma preserves_clearSession P :
  (∀ w, P w → P (cleared w)) → preserves P clearSession.
Proof.
  intros Hf w r w' HP. rewrite clearSession_eq. intros [= _ <-]. auto.
Qed.

Lemma getSession_object w fields :
  localStorage w !! SESSION_KEY = Some (Decoded (JObj fields)) →
  getSession w = (Ok (JObj fields), ticked w)
  ∨ getSession w = (Ok JNull, cleared (ticked w)).
Proof.
  intros Hitem.
  unfold getSession, localStorage_getItem, JSON_parse, Date_now.
  monad_unfold. rewrite Hitem. cbv beta iota.
  change (set_clock _ _ w) with (ticked w).
  destruct (read_number (JObj fields) "expiresAt" (ticked w))
    as [[n|e] w2] eqn:R; apply read_number_pure in R as [-> _].
  - destruct (js_gt (Num (clock w)) n); [|by left].
    rewrite clearSession_eq. by right.
  - rewrite clearSession_eq. by right.
Qed.

End Reachable.

Ltac frame_reader leaf :=
  repeat first
    [ apply preserves_ret
    | apply preserves_throw
    | apply preserves_reads
    | match goal with
      | |- preserves _ clearSession => apply preserves_clearSession; leaf
      | |- preserves _ Date_now => apply preserves_Date_now; leaf
      | |- preserves _ (modify _) => apply preserves_modify; leaf
      | |- preserves _ (match ?x with _ => _ end) => destruct x
      end
    | apply preserves_bind; [|intros ?]
    | apply preserves_try_catch; [|intros ?] ].

Ltac poll_leaf :=
  let w := fresh "w" in
  let HP := fresh "HP" in
  intros w HP; unfold kept_or_signed_out in *; world_simpl;
  first [ done | right; apply lookup_delete_eq ].

Section Polling.
Context `{rt : Runtime}.

Lemma getSession_keeps_poll s q a :
  preserves (kept_or_signed_out s q a) getSession.
Proof.
  unfold getSession, read_number, ToNumber, get_prop, JSON_parse,
    localStorage_getItem.
  frame_reader poll_leaf.
Qed.

Lemma readers_keep_poll s q a e :
  is_write e = false → is_timer e = false →
  preserves (kept_or_signed_out s q a) (run e).
Proof.
  intros Hr Ht. destruct e; try discriminate Hr; try discriminate Ht;
    unfold run, void, response_unauthorized, js_require, getTimeRemaining,
      setOnSessionExpired, getCurrentUser, isLoggedIn, getSession,
      read_number, ToNumber, get_prop, JSON_parse, localStorage_getItem;
    frame_reader poll_leaf.
Qed.

Lemma getSession_keeps_timers_wf : preserves timers_wf getSession.
Proof.
  unfold_manager.
  frame ltac:(first [ apply timers_wf_stopped | field_leaf timers_wf ]).
Qed.

Lemma getSession_keeps_steady w r w1 :
  drift w = [] → getSession w = (r, w1) →
  drift w1 = [] ∧ clock w1 = clock w.
Proof.
  intros Hs E. destruct (getSession_shape w) as (j & w' & E' & Hw & _).
  rewrite E in E'. injection E' as -> <-.
  rewrite (ticked_steady w) in Hw by done.
  destruct Hw as [-> | [-> | [-> | ->]]]; by world_simpl.
Qed.

Lemma watched_kept t t' w w' :
  t ≤ t' →
  kept_or_signed_out (localStorage w !! SESSION_KEY) (timeouts w)
    (activityTimer w) w' →
  watched t w → watched t' w'.
Proof.
  intros Hle [(Hs & Hq & Ha) | Hnone] Hw fields Hitem.
  - rewrite Hs in Hitem. destruct (Hw fields Hitem) as (due & (h & ? & ?) & ?).
    exists due. split; [|lia]. exists h. split; congruence.
  - congruence.
Qed.

Lemma watched_started t w :
  timers_wf w → clock w = t → watched t (started w).
Proof.
  intros Hwf <- fields _. exists (clock w + CHECK_INTERVAL).
  split; [by apply started_armed|lia].
Qed.

Lemma activityTimer_callback_truthy w j w1 :
  drift w = [] → getSession w = (Ok j, w1) → truthy j = true →
  activityTimer_callback w = (Ok tt, started w).
Proof.
  intros Hs E T.
  unfold activityTimer_callback. monad_unfold. rewrite E. cbv beta iota.
  rewrite T. cbn [negb].
  destruct (getSession_verdict w j w1 E T) as (-> & n & Hread & Hgt).
  rewrite (ticked_steady w) by done.
  unfold Date_now. cbv beta iota.
  change (set_clock _ _ w) with (ticked w).
  rewrite (ticked_steady w) by done.
  rewrite Hread. cbv beta iota.
  rewrite Hgt. apply startActivityTimer_eq.
Qed.

Lemma updateActivity_watched t t' w :
  t ≤ t' → polled t w → watched t' (updateActivity (at_instant t' w)).2.
Proof.
  intros Hle [Hwf Hw]. rewrite updateActivity_eq.
  set (w0 := counted (at_instant t' w)).
  destruct (getSession w0) as [r w1] eqn:E.
  assert (Hkept : kept_or_signed_out (localStorage w !! SESSION_KEY)
                    (timeouts w) (activityTimer w) w1).
  { apply (getSession_keeps_poll _ _ _ w0 r w1); [by left|done]. }
  assert (Hwf1 : timers_wf w1).
  { by apply (getSession_keeps_timers_wf w0 r w1). }
  destruct (getSession_keeps_steady w0 r w1 eq_refl E) as [Hs1 Hc1].
  assert (Hc : clock w1 = t') by (by rewrite Hc1).
  destruct r as [j|?]; [|by apply (watched_kept t t' w)].
  destruct (truthy j) eqn:T; [|by apply (watched_kept t t' w)].
  rewrite (ticked_steady w1) by done.
  destruct j; cbn [snd];
    try (by apply (watched_kept t t' w));
    by apply (watched_started t' (stored _ w1)).
Qed.

Lemma fire_watched t t' h w :
  t ≤ t' → polled t w → watched t' (exec_at t' (TimerFires h) w).
Proof.
  intros Hle [Hwf Hw]. unfold exec_at, exec.
  set (wi := at_instant t' w).
  destruct (timeouts wi !! h) as [due|] eqn:L.
  2: { unfold run, fire. monad_unfold. rewrite L.
       by apply (watched_kept t t' w); [|left|]. }
  destruct (Z.le_gt_cases due (clock wi)) as [Hdue|Hnot].
  2: { unfold run, fire. monad_unfold. rewrite L.
       destruct (Z.leb_spec due (clock wi)); [lia|].
       by apply (watched_kept t t' w); [|left|]. }
  rewrite (fire_due wi h due) by done.
  set (wq := set_timeouts _ _ wi).
  assert (Hwfq : timers_wf wq) by by apply timers_wf_dequeue.
  destruct (getSession wq) as [[j|?] w1] eqn:E.
  2: { destruct (getSession_shape wq) as (? & ? & E' & _). congruence. }
  destruct (truthy j) eqn:T.
  - rewrite (activityTimer_callback_truthy wq j w1) by done.
    by apply watched_started.
  - intros fields Hitem. exfalso. revert Hitem.
    unfold activityTimer_callback. monad_unfold. rewrite E, T. simpl.
    intros Hitem.
    destruct (getSession_shape wq) as (j' & w1' & E' & Hshape & Hj).
    rewrite E in E'. injection E' as <- <-.
    assert (Hstore : localStorage wq !! SESSION_KEY
                     = Some (Decoded (JObj fields))).
    { destruct Hshape as [-> | [-> | [-> | ->]]]; revert Hitem;
        world_simpl; try done; by rewrite lookup_delete_eq. }
    destruct (getSession_object wq fields Hstore) as [E'' | E''];
      rewrite E in E''; injection E'' as -> ->; [done|].
    revert Hitem. world_simpl. by rewrite lookup_delete_eq.
Qed.

Lemma exec_at_keeps_polled t t' e w :
  t ≤ t' → polled t w → polled t' (exec_at t' e w).
Proof.
  intros Hle Hp. split; [apply timers_wf_exec_at, Hp|].
  destruct (is_timer e) eqn:Ht.
  { destruct e; try discriminate Ht. by apply (fire_watched t). }
  destruct (is_write e) eqn:Hw.
  - destruct Hp as [Hwf Hwatched].
    destruct e; try discriminate Hw.
    + unfold exec_at, exec, run. rewrite saveSession_eq. cbn [snd].
      rewrite (ticked_steady (at_instant t' w)) by done.
      by apply (watched_started t' (stored _ (at_instant t' w))).
    + by apply (updateActivity_watched t).
    + by apply (updateActivity_watched t).
    + unfold exec_at, exec, run.
      destruct (Z.le_gt_cases (t' - lastActivityTime w) throttleDelay).
      * rewrite handleActivity_dropped by done.
        by apply (watched_kept t t' w); [|left|].
      * rewrite handleActivity_forwarded by (simpl; done || lia).
        pose proof (updateActivity_watched t t' w Hle (conj Hwf Hwatched))
          as Hup.
        by destruct (updateActivity (at_instant t' w)) as [[[]|?] w'].
    + by apply (updateActivity_watched t).
    + by apply (updateActivity_watched t).
  - destruct Hp as [Hwf Hwatched]. apply (watched_kept t t' w); [done| |done].
    unfold exec_at.
    apply (preserves_exec (kept_or_signed_out (localStorage w !! SESSION_KEY)
                             (timeouts w) (activityTimer w)));
      [by apply readers_keep_poll|by left].
Qed.

Lemma play_keeps_polled trace :
  ∀ t w, polled t w → monotone t trace →
         polled (last_instant t trace) (play trace w).
Proof.
  induction trace as [|[t' e] trace IH]; intros t w Hp Hmono; [done|].
  destruct Hmono as [Hle Hmono]. simpl.
  replace (last_instant t ((t', e) :: trace)) with (last_instant t' trace).
  - apply IH; [|done]. by apply (exec_at_keeps_polled t).
  - unfold last_instant. rewrite fmap_cons, last_cons.
    by destruct (last (trace.*1)).
Qed.

Lemma polled_fresh : polled 0 fresh_world.
Proof. split; [apply timers_wf_fresh|]. intros fields. by vm_compute. Qed.

(** X22. A stored record is always being polled: when nothing but the
    manager writes to the session key and the clock never goes back,
    whenever a record is stored exactly one expiration check is pending,
    the manager holds its handle, and it is due at most one check interval
    after the last event. *)
Theorem stored_record_is_polled trace fields :
  monotone 0 trace →
  localStorage (play trace fresh_world) !! SESSION_KEY
  = Some (Decoded (JObj fields)) →
  ∃ h due,
    activityTimer (play trace fresh_world) = Some h
    ∧ timeouts (play trace fresh_world) = {[h := due]}
    ∧ due ≤ last_instant 0 trace + CHECK_INTERVAL.
Proof.
  intros Hmono Hitem.
  destruct (play_keeps_polled trace 0 fresh_world polled_fresh Hmono)
    as [_ Hwatched].
  destruct (Hwatched fields Hitem) as (due & (h & Hh & Hq) & Hdue).
  by exists h, due.
Qed.

End Polling.

Section KeepAliveThrottled.
Context `{rt : Runtime}.

(** X23. The throttle cannot starve the session: when interaction events
    follow one another at most TIMEOUT_DURATION - throttleDelay (14.5
    minutes) apart, however many of them the throttle drops, the session is
    still stored after the last one, with the user and the loginTime it
    had, and stays valid for at least that long after it. *)
Theorem interaction_keeps_session_alive ts :
  ∀ w fields e t0,
    holds_record w fields e →
    lastActivityTime w + TIMEOUT_DURATION ≤ e →
    t0 + (TIMEOUT_DURATION - throttleDelay) ≤ e →
    gaps_within (TIMEOUT_DURATION - throttleDelay) t0 ts →
    let w' := play (interactions ts) w in
    ∃ fields' e',
      holds_record w' fields' e'
      ∧ lastActivityTime w' + TIMEOUT_DURATION ≤ e'
      ∧ default t0 (last ts) + (TIMEOUT_DURATION - throttleDelay) ≤ e'
      ∧ obj_get "user" fields' = obj_get "user" fields
      ∧ obj_get "loginTime" fields' = obj_get "loginTime" fields.
Proof.
  induction ts as [|t ts IH]; intros w fields e t0 Hrec Hstamp Hlast Hgaps.
  - by exists fields, e.
  - destruct Hgaps as [Hgap Hgaps]. simpl.
    assert (Hfinal : ∀ x, default t0 (last (t :: ts)) = x
                          ↔ default t (last ts) = x).
    { intros x. rewrite last_cons. by destruct (last ts). }
    destruct (Z.le_gt_cases (t - lastActivityTime w) throttleDelay)
      as [Hdrop|Hopen].
    + rewrite interaction_dropped by done.
      destruct (IH (at_instant t w) fields e t) as
        (fields' & e' & Hrec' & Hstamp' & Hlast' & Huser & Hlogin);
        [done|done|simpl; lia|done|].
      exists fields', e'. split; [done|]. split; [done|].
      split; [|done]. by rewrite (proj2 (Hfinal _) eq_refl).
    + rewrite (interaction_renews t w fields e) by (done || lia).
      set (w1 := set_lastActivityTime t _).
      assert (Hrec1 : holds_record w1 (renewed t fields)
                        (t + TIMEOUT_DURATION))
        by apply (holds_record_renewed t fields (counted (at_instant t w))).
      destruct (IH w1 (renewed t fields) (t + TIMEOUT_DURATION) t) as
        (fields' & e' & Hrec' & Hstamp' & Hlast' & Huser & Hlogin);
        [done|done|unfold throttleDelay; lia|done|].
      exists fields', e'. split; [done|]. split; [done|].
      split; [by rewrite (proj2 (Hfinal _) eq_refl)|].
      by rewrite Huser, Hlogin, !renewed_other.
Qed.

End KeepAliveThrottled.

(** ** Closed runs *)

#[local] Existing Instance plain_runtime.

(** C4. In the scenario of the specification the deadlines are 900000 and
    1400000 and the read at 1450000 returns absent, but the host's expiry
    callback is not invoked: not by the timer ticks before the read, not
    by the read, and not afterwards, since the read has cancelled the
    pending timeout. *)
Theorem expiry_scenario_never_notifies :
  ∃ w, expiry_scenario = Some (Some 900000, Some 1400000, Ok JNull, w)
       ∧ expired_log w = []
       ∧ onSessionExpired w = Some 7%nat
       ∧ localStorage w !! SESSION_KEY = None
       ∧ timeouts w = ∅.
Proof. eexists. split; [vm_compute; reflexivity|]. by vm_compute. Qed.

(** The expiry branch of the timer callback is taken only when the clock
    passes the deadline between the two readings of one callback. *)
Lemma expiry_branch_needs_clock_tick :
  expired_log (exec (TimerFires 0%nat) racing) = [7%nat]
  ∧ expired_log (exec (TimerFires 0%nat) (at_instant 1400000 racing)) = []
  ∧ expired_log (exec (TimerFires 0%nat) (at_instant 1400001 racing)) = [].
Proof. by vm_compute. Qed.

(** *** Instances *)

Lemma holds_record_overdue : holds_record overdue (new_record alice 0) 900000.
Proof. split; by vm_compute. Qed.

Lemma holds_record_logged_in t :
  holds_record (at_instant t logged_in) (new_record alice 0) 900000.
Proof. split; by vm_compute. Qed.

Lemma assignable_logged_in t : assignable (at_instant t logged_in).
Proof.
  intros j. change (localStorage (at_instant t logged_in))
    with (localStorage logged_in).
  replace (localStorage logged_in !! SESSION_KEY)
    with (Some (Decoded (JObj (new_record alice 0)))) by (by vm_compute).
  intros [= <-] _. eauto.
Qed.

(** C1 on the page where the session is one millisecond overdue. *)
Lemma getSession_purges_expired_record_witness :
  ∃ w', getSession overdue = (Ok JNull, w')
        ∧ localStorage w' !! SESSION_KEY = None
        ∧ ∀ k, k ≠ SESSION_KEY →
            localStorage w' !! k = localStorage overdue !! k.
Proof.
  apply (getSession_purges_expired_record overdue (new_record alice 0) 900000).
  - exact holds_record_overdue.
  - reflexivity.
Defined.

(** C2 (amended) on a store that holds text which is not JSON. *)
Lemma getSession_on_corrupt_payload_witness :
  ∃ r w', getSession garbled = (Ok r, w')
          ∧ r = JNull ∧ localStorage w' !! SESSION_KEY = None.
Proof.
  apply (getSession_on_corrupt_payload garbled Malformed).
  - by vm_compute.
  - constructor.
Defined.

(** C2, as stated, fails: an object without expiresAt is handed out as the
    session and stays in the store. *)
Lemma getSession_returns_record_without_deadline :
  obj_get "expiresAt" no_deadline_record = None
  ∧ (getSession tampered).1 = Ok (JObj no_deadline_record)
  ∧ (getSession tampered).1 ≠ Ok JNull
  ∧ localStorage (getSession tampered).2 !! SESSION_KEY
    = Some (Decoded (JObj no_deadline_record)).
Proof. by vm_compute. Qed.

(** C3 on a page with the callback 7 registered and a record stored: the
    tick during which the clock passes the deadline invokes the callback
    once and clears the record; an explicit clearSession() invokes nothing,
    and neither does a login followed by a logout. *)
Lemma expiry_callback_only_on_timeout_witness :
  onSessionExpired racing = Some 7%nat
  ∧ is_timer ClearSession = false
  ∧ expired_log (exec (TimerFires 0) racing) = 7%nat :: expired_log racing
  ∧ localStorage (exec (TimerFires 0) racing) !! SESSION_KEY = None
  ∧ expired_log (exec ClearSession racing) = expired_log racing
  ∧ isLoggedIn
      (at_instant 1400002
         (play [(1400000, SaveSession alice); (1400001, ClearSession)] racing))
    = (Ok false,
       at_instant 1400002
         (play [(1400000, SaveSession alice); (1400001, ClearSession)] racing))
  ∧ expired_log
      (play [(1400000, SaveSession alice); (1400001, ClearSession)] racing)
    = expired_log racing.
Proof.
  split; [reflexivity|]. split; [reflexivity|].
  destruct (expiry_callback_only_on_timeout racing (TimerFires 0) alice
              1400000 1400001 1400002) as [Htick _].
  destruct (expiry_callback_only_on_timeout racing ClearSession alice
              1400000 1400001 1400002)
    as (_ & Hquiet & _ & Hlogin & Hlog & _ & _).
  split; [|split; [|split; [exact (Hquiet eq_refl)|]]];
    [| |split; [exact Hlogin|exact Hlog]].
  - destruct Htick as [Hsame | (h & due & callback & j & deadline & _ & _ & _
                                 & Hcb & _ & _ & _ & Hlog' & _ & _)].
    + vm_compute in Hsame. discriminate Hsame.
    + vm_compute in Hcb. injection Hcb as <-. exact Hlog'.
  - destruct Htick as [Hsame | (h & due & callback & j & deadline & _ & _ & _
                                 & _ & _ & _ & _ & _ & Hstore & _)].
    + vm_compute in Hsame. discriminate Hsame.
    + exact Hstore.
Defined.

(** C5, as stated, fails: two API signals one millisecond apart both reach
    updateActivity(). *)
Lemma api_signals_are_not_throttled :
  updateActivity_calls logged_in = 0%nat
  ∧ updateActivity_calls
      (play [(1000, ApiRequest); (1001, ApiResponse)] logged_in) = 2%nat.
Proof. by vm_compute. Qed.

(** The throttle needs a payload updateActivity() can write to: when the
    store holds the text [5], every interaction event reaches
    updateActivity(), which throws before the stamp is set. *)
Lemma interaction_throttle_needs_assignable :
  let w := stored (Decoded (JNum 5)) fresh_world in
  run Interaction (at_instant 50000 w) = (Throw TypeError, counted (at_instant 50000 w))
  ∧ updateActivity_calls (play (interactions [50000; 50001]) w) = 2%nat.
Proof. by vm_compute. Qed.

(** C5 (amended) on three interaction events within 29999 ms. *)
Lemma interaction_throttle_witness :
  (updateActivity_calls
     (play (interactions [50000; 60000; 79999]%Z) (at_instant 0%Z logged_in))
   ≤ 1)%nat
  ∧ updateActivity_calls (exec_at 50000 Interaction (at_instant 0 logged_in))
    = 1%nat
  ∧ exec_at 20000 Interaction (at_instant 0 logged_in)
    = at_instant 20000 logged_in.
Proof.
  assert (Hwindow : ∀ a b : Z, a ∈ [50000; 60000; 79999] →
            b ∈ [50000; 60000; 79999] → a - b < throttleDelay).
  { intros a b Ha Hb. rewrite !elem_of_cons, elem_of_nil in Ha, Hb.
    unfold throttleDelay. lia. }
  destruct (interaction_throttle (at_instant 0 logged_in)
              [50000; 60000; 79999] (assignable_logged_in 0) Hwindow)
    as (Hburst & Hdrop & Hforward & _).
  split; [exact Hburst|]. split.
  - apply (Hforward 50000). by vm_compute.
  - apply (Hdrop 20000). by vm_compute.
Defined.

(** C6, as stated, fails: when the clock has gone back between login and
    renewal, updateActivity() writes a record whose loginTime is after its
    lastActivity. *)
Lemma updateActivity_can_break_login_order :
  ∃ fields,
    localStorage (play [(1000, SaveSession alice); (500, UpdateActivity)]
                    fresh_world) !! SESSION_KEY
    = Some (Decoded (JObj fields))
    ∧ instant_of "loginTime" fields = Some 1000
    ∧ instant_of "lastActivity" fields = Some 500
    ∧ instant_of "expiresAt" fields = Some 900500
    ∧ record_invariant fields = false.
Proof. eexists. split; [by vm_compute|]. by vm_compute. Qed.

(** C6 (amended) on login at 0 and renewal at 500000. *)
Lemma written_record_invariants_witness :
  record_invariant (new_record alice 0) = true
  ∧ ∃ now, now = 500000
      ∧ localStorage (exec UpdateActivity (at_instant 500000 logged_in))
          !! SESSION_KEY
        = Some (Decoded (JObj (renewed now (new_record alice 0))))
      ∧ deadline_invariant (renewed now (new_record alice 0)) = true
      ∧ login_invariant (renewed now (new_record alice 0)) = true.
Proof.
  destruct (written_record_invariants (at_instant 500000 logged_in) alice)
    as [[_ Hsave] Hupdate].
  destruct (Hupdate (new_record alice 0) 900000
              (holds_record_logged_in 500000) ltac:(by vm_compute))
    as (now & Hnow & Hstore & Hdeadline & _ & Hlogin).
  split; [apply new_record_invariant|].
  exists now. split; [by apply Hnow|]. split; [done|]. split; [done|].
  apply Hlogin. exists 0. split; [by vm_compute|].
  rewrite (Hnow eq_refl). by vm_compute.
Defined.

(** C7 on two renewals within the millisecond 500000. *)
Lemma updateActivity_idempotent_same_instant_witness :
  let w1 := exec UpdateActivity (at_instant 500000 logged_in) in
  let w2 := exec UpdateActivity w1 in
  localStorage w2 = localStorage w1
  ∧ holds_record w2 (renewed 500000 (new_record alice 0)) 1400000.
Proof.
  destruct (updateActivity_idempotent_same_instant
              (at_instant 500000 logged_in) (new_record alice 0) 900000
              eq_refl (holds_record_logged_in 500000) ltac:(by vm_compute))
    as (_ & _ & _ & Hrec & Hstore).
  split; [exact Hstore|exact Hrec].
Defined.

(** C8: 6 minutes are left at 500000 of a session that expires at 900000;
    0 with no record, with garbled text and with an overdue record. *)
Lemma getTimeRemaining_spec_witness :
  getTimeRemaining (at_instant 500000 logged_in)
  = (Ok (Num 6), at_instant 500000 logged_in)
  ∧ getTimeRemaining fresh_world = (Ok (Num 0), fresh_world)
  ∧ getTimeRemaining garbled = (Ok (Num 0), cleared garbled)
  ∧ ∃ w', getTimeRemaining overdue = (Ok (Num 0), w')
          ∧ localStorage w' !! SESSION_KEY = None.
Proof.
  split; [|split; [|split]].
  - apply (proj1 (getTimeRemaining_spec (at_instant 500000 logged_in) eq_refl)
             (new_record alice 0) 900000 (holds_record_logged_in 500000)).
    by vm_compute.
  - apply (proj1 (proj2 (proj2 (getTimeRemaining_spec fresh_world eq_refl)))).
    by vm_compute.
  - apply (proj1 (proj2 (getTimeRemaining_spec garbled eq_refl))).
    by vm_compute.
  - apply (proj2 (proj2 (proj2 (getTimeRemaining_spec overdue eq_refl)))
             (new_record alice 0) 900000 holds_record_overdue).
    by vm_compute.
Defined.

(** C9, as stated, fails: after saveSession(0) the session is valid and
    its user field is 0, yet getCurrentUser() returns null. *)
Lemma getCurrentUser_drops_falsy_user :
  let w := at_instant 1 (exec_at 0 (SaveSession (J (JNum 0))) fresh_world) in
  holds_record w (new_record (J (JNum 0)) 0) 900000
  ∧ obj_get "user" (new_record (J (JNum 0)) 0) = Some (JNum 0)
  ∧ (isLoggedIn w).1 = Ok true
  ∧ (getCurrentUser w).1 = Ok JNull.
Proof. split; [split; by vm_compute|]. by vm_compute. Qed.

(** C9 (amended) on the logged-in page: the user is handed out. *)
Lemma getCurrentUser_spec_witness :
  ∃ w', getCurrentUser (at_instant 500000 logged_in)
        = (Ok (JObj [("id"%string, JNum 1)]), w')
        ∧ localStorage w' = localStorage (at_instant 500000 logged_in).
Proof.
  apply (proj1 (getCurrentUser_spec (at_instant 500000 logged_in))
           (new_record alice 0) 900000 (holds_record_logged_in 500000)).
  by vm_compute.
Defined.

Lemma timers_wf_overdue : timers_wf overdue.
Proof.
  apply (timers_wf_play [(0, SaveSession alice)] fresh_world timers_wf_fresh).
Qed.

(** C10 on the page where the session is one millisecond overdue. *)
Lemma updateActivity_expired_is_purge_witness :
  ∃ w', updateActivity overdue = (Ok tt, w')
        ∧ localStorage w' !! SESSION_KEY = None
        ∧ activityTimer w' = None
        ∧ timeouts w' = ∅.
Proof.
  destruct (updateActivity_expired_is_purge overdue (new_record alice 0)
              900000 holds_record_overdue eq_refl)
    as (w' & Hrun & Hstore & Hhandle & _ & Hqueue).
  exists w'. split; [done|]. split; [done|]. split; [done|].
  apply Hqueue, timers_wf_overdue.
Defined.

(** *** Instances of the further properties *)

Lemma holds_record_just_logged_in :
  holds_record logged_in (new_record alice 0) 900000.
Proof. exact (holds_record_saved alice 0 fresh_world). Qed.

Lemma timers_wf_logged_in t : timers_wf (at_instant t logged_in).
Proof.
  apply (timers_wf_play [(0, SaveSession alice)] fresh_world timers_wf_fresh).
Qed.

(** X1 on a login at 0 read at 500000. *)
Lemma saveSession_getSession_round_trip_witness :
  getSession (at_instant 500000 logged_in)
  = (Ok (JObj (new_record alice 0)), at_instant 500000 logged_in)
  ∧ getCurrentUser (at_instant 500000 logged_in)
    = (Ok (JObj [("id"%string, JNum 1)]), at_instant 500000 logged_in).
Proof.
  destruct (proj1 (saveSession_getSession_round_trip fresh_world alice 0
                     500000) ltac:(by vm_compute)) as [Hget Huser].
  split; [exact Hget|]. by apply Huser.
Defined.

(** X4 on a freshly loaded page. *)
Lemma updateActivity_without_session_witness :
  updateActivity fresh_world = (Ok tt, counted fresh_world).
Proof.
  apply (proj1 (updateActivity_without_session fresh_world
                  ltac:(by vm_compute))).
Defined.

(** X5 on a renewal at 500000. *)
Lemma updateActivity_keeps_other_fields_witness :
  (getCurrentUser (exec UpdateActivity (at_instant 500000 logged_in))).1
  = (getCurrentUser (at_instant 500000 logged_in)).1.
Proof.
  destruct (updateActivity_keeps_other_fields (at_instant 500000 logged_in)
              (new_record alice 0) 900000 eq_refl
              (holds_record_logged_in 500000) ltac:(by vm_compute))
    as (fields' & _ & _ & Huser).
  exact Huser.
Defined.

(** X6 on a renewal at 500000 read at 1400000, past the first deadline. *)
Lemma renewal_slides_deadline_witness :
  getSession (at_instant 1400000 (exec_at 500000 UpdateActivity logged_in))
  = (Ok (JObj (renewed 500000 (new_record alice 0))),
     at_instant 1400000 (exec_at 500000 UpdateActivity logged_in)).
Proof.
  apply (proj1 (renewal_slides_deadline logged_in (new_record alice 0) 900000
                  500000 1400000 holds_record_just_logged_in
                  ltac:(by vm_compute))).
  by vm_compute.
Defined.

(** X8 on reads at 100000 and at 500000. *)
Lemma getTimeRemaining_counts_down_witness :
  ∃ m1 m2,
    (getTimeRemaining (at_instant 100000 logged_in)).1 = Ok (Num m1)
    ∧ (getTimeRemaining (at_instant 500000 logged_in)).1 = Ok (Num m2)
    ∧ 0 ≤ m2 ≤ m1
    ∧ 60000 * m1 ≤ 900000 - 100000 < 60000 * (m1 + 1).
Proof.
  apply (getTimeRemaining_counts_down logged_in (new_record alice 0) 900000
           100000 500000 holds_record_just_logged_in);
    by vm_compute.
Defined.

(** X9 one millisecond after login. *)
Lemma getTimeRemaining_after_login_witness :
  ∃ m, (getTimeRemaining (at_instant 1 logged_in)).1 = Ok (Num m)
       ∧ 0 ≤ m ≤ 15 ∧ (m = 15 ↔ 1 = 0).
Proof.
  apply (getTimeRemaining_after_login fresh_world alice 0 1); by vm_compute.
Defined.

(** X10 with 100 seconds left. *)
Lemma session_warning_window_witness :
  warningInterval_callback (at_instant 800000 logged_in)
  = (Ok (Num 1, true), at_instant 800000 logged_in).
Proof.
  apply (proj1 (session_warning_window (at_instant 800000 logged_in) eq_refl)
           (new_record alice 0) 900000 (holds_record_logged_in 800000)).
  by vm_compute.
Defined.


(** X12 on the record written into the store by hand. *)
Lemma record_without_deadline_is_shown_healthy_witness :
  getTimeRemaining tampered = (Ok NaN, tampered)
  ∧ updateStatus tampered = (Ok (NaN, true), tampered)
  ∧ SessionStatus_chip NaN true = Some ("success"%string, NaN)
  ∧ warningInterval_callback tampered = (Ok (NaN, false), tampered).
Proof.
  apply (record_without_deadline_is_shown_healthy tampered no_deadline_record);
    by vm_compute.
Defined.

(** X13 on a reload at 500000 of a page where alice logged in at 0. *)
Lemma session_survives_reload_witness :
  App_restore 7%nat (at_instant 500000 (reload logged_in))
  = (Ok (Some alice),
     set_onSessionExpired (Some 7%nat) (at_instant 500000 (reload logged_in)))
  ∧ timeouts (set_onSessionExpired (Some 7%nat)
                (at_instant 500000 (reload logged_in))) = ∅.
Proof.
  apply (proj1 (session_survives_reload fresh_world
                  (JObj [("id"%string, JNum 1)]) 0 500000 7%nat
                  ltac:(done))).
  by vm_compute.
Defined.

(** X14 on the record that saveSession(undefined) leaves behind. *)
Lemma App_restore_throws_without_user_witness :
  ∃ w', App_restore 7%nat
          (at_instant 1 (exec_at 0 (SaveSession Undefined) fresh_world))
        = (Throw TypeError, w')
        ∧ onSessionExpired w' = None.
Proof.
  apply (App_restore_throws_without_user
           (at_instant 1 (exec_at 0 (SaveSession Undefined) fresh_world))
           (new_record Undefined 0) 900000).
  - exact (holds_record_saved Undefined 0 fresh_world).
  - by vm_compute.
  - by left.
Defined.

(** X15 on a login followed by a renewal. *)
Lemma at_most_one_timeout_pending_witness :
  (size (timeouts (play [(0%Z, SaveSession alice); (10%Z, UpdateActivity)]
                     fresh_world)) ≤ 1)%nat.
Proof.
  apply (proj1 (at_most_one_timeout_pending
                  [(0, SaveSession alice); (10, UpdateActivity)]
                  fresh_world timers_wf_fresh)).
Defined.

(** X16 on a login at 0. *)
Lemma writes_restart_the_poll_witness : armed_at 60000 logged_in.
Proof.
  apply (proj1 (writes_restart_the_poll fresh_world 0 alice timers_wf_fresh)).
Defined.

(** X17 on the first tick after a login at 0. *)
Lemma timer_tick_polls_witness :
  localStorage (exec (TimerFires 0%nat) (at_instant 60000 logged_in))
  = localStorage (at_instant 60000 logged_in)
  ∧ armed_at 120000 (exec (TimerFires 0%nat) (at_instant 60000 logged_in)).
Proof.
  apply (proj1 (timer_tick_polls (at_instant 60000 logged_in) 0%nat 60000
                  eq_refl (timers_wf_logged_in 60000) ltac:(by vm_compute)
                  ltac:(by vm_compute))
           (new_record alice 0) 900000 (holds_record_logged_in 60000)).
  by vm_compute.
Defined.

Lemma holds_record_racing :
  holds_record racing (new_record alice 500000) 1400000.
Proof. split; by vm_compute. Qed.

(** X18 on a tick during which the clock moves from 1400000 to 1400001. *)
Lemma expiry_callback_needs_clock_to_cross_deadline_witness :
  expired_log (activityTimer_callback racing).2 = [7%nat]
  ∧ localStorage (activityTimer_callback racing).2 !! SESSION_KEY = None.
Proof.
  apply (proj2 (proj2 (expiry_callback_needs_clock_to_cross_deadline racing
                         (new_record alice 500000) 1400000 7%nat
                         holds_record_racing eq_refl)));
    by vm_compute.
Defined.

(** X19 on the first interaction event, at 50000, after a login at 0. *)
Lemma forwarded_interaction_renews_witness :
  holds_record (exec_at 50000 Interaction logged_in)
    (renewed 50000 (new_record alice 0)) 950000
  ∧ lastActivityTime (exec_at 50000 Interaction logged_in) = 50000
  ∧ armed_at 110000 (exec_at 50000 Interaction logged_in).
Proof.
  apply (forwarded_interaction_renews logged_in (new_record alice 0) 900000
           50000 (timers_wf_logged_in 0) holds_record_just_logged_in);
    by vm_compute.
Defined.

(** X20 on three events, the last one 800 seconds after the second. *)
Lemma paced_interaction_keeps_session_alive_witness :
  ∃ fields' e',
    holds_record (play (interactions [50000; 100000; 900000]) logged_in)
      fields' e'
    ∧ 900000 + TIMEOUT_DURATION ≤ e'
    ∧ updateActivity_calls
        (play (interactions [50000; 100000; 900000]) logged_in) = 3%nat.
Proof.
  destruct (paced_interaction_keeps_session_alive [50000; 100000; 900000]
              logged_in (new_record alice 0) 900000
              holds_record_just_logged_in ltac:(by vm_compute)
              ltac:(by vm_compute))
    as (fields' & e' & Hrec & Hfresh & Hstamp & Hcalls & _).
  exists fields', e'. split; [exact Hrec|]. split.
  - rewrite Hstamp in Hfresh. exact Hfresh.
  - exact Hcalls.
Defined.

(** X21 and X22 on a login at 0 followed by a renewal at 500000. *)
Lemma stored_record_is_well_formed_witness :
  localStorage (play [(0, SaveSession alice); (500000, UpdateActivity)]
                  fresh_world) !! SESSION_KEY = None
  ∨ ∃ fields,
      localStorage (play [(0, SaveSession alice); (500000, UpdateActivity)]
                      fresh_world) !! SESSION_KEY
      = Some (Decoded (JObj fields))
      ∧ record_invariant fields = true.
Proof.
  apply (stored_record_is_well_formed
           [(0, SaveSession alice); (500000, UpdateActivity)]).
  by vm_compute.
Defined.

Lemma stored_record_is_polled_witness :
  ∃ h due,
    activityTimer (play [(0, SaveSession alice); (500000, UpdateActivity)]
                     fresh_world) = Some h
    ∧ timeouts (play [(0, SaveSession alice); (500000, UpdateActivity)]
                  fresh_world) = {[h := due]}
    ∧ due ≤ 500000 + CHECK_INTERVAL.
Proof.
  apply (stored_record_is_polled
           [(0, SaveSession alice); (500000, UpdateActivity)]
           (renewed 500000 (new_record alice 0)));
    by vm_compute.
Defined.

(** X23 on three events of which the throttle drops the first two. *)
Lemma interaction_keeps_session_alive_witness :
  ∃ fields' e',
    holds_record (play (interactions [10000; 20000; 880000]) logged_in)
      fields' e'
    ∧ 880000 + (TIMEOUT_DURATION - throttleDelay) ≤ e'.
Proof.
  destruct (interaction_keeps_session_alive [10000; 20000; 880000]
              logged_in (new_record alice 0) 900000 0
              holds_record_just_logged_in ltac:(by vm_compute)
              ltac:(by vm_compute) ltac:(by vm_compute))
    as (fields' & e' & Hrec & _ & Hlast & _).
  exists fields', e'. split; [exact Hrec|exact Hlast].
Defined.
